(** * mbed-os: nRF5x reset reason and watchdog HAL, Quectel BC95 cellular context

    A shallow embedding of
    - [targets/TARGET_NORDIC/TARGET_NRF5x/reset_reason_api.c],
    - [targets/TARGET_NORDIC/TARGET_NRF5x/watchdog_api.c],
    - [features/cellular/framework/targets/QUECTEL/BC95/QUECTEL_BC95_CellularContext.h],
    together with a model of the AT command engine and of the cellular
    context life cycle as the specification describes them. *)

From Stdlib Require Import ZArith Lia Ascii String List Bool Arith.
From stdpp Require Import gmap strings list fin_maps.

Local Open Scope Z_scope.

(** ** 32-bit unsigned arithmetic *)

Definition UINT32_MAX : Z := 4294967295.

(** A C [uint32_t] result: the mathematical value reduced modulo 2^32. *)
Definition u32 (x : Z) : Z := x mod 2 ^ 32.

(** ** reset_reason_api.c *)

Module ResetReason.

(** The values of [reset_reason_t] (hal/reset_reason_api.h) that the
    nRF5x port returns. *)
Inductive reset_reason_t : Set :=
| RESET_REASON_PIN_RESET
| RESET_REASON_WATCHDOG
| RESET_REASON_SOFTWARE
| RESET_REASON_LOCKUP
| RESET_REASON_PLATFORM
| RESET_REASON_MULTIPLE
| RESET_REASON_UNKNOWN.

(** The [NRF_POWER_RESETREAS_*_MASK] constants come from the vendor
    header nrf_power.h, which is not part of the sources: they are
    parameters of the model.  The LPCOMP, NFC and VBUS masks exist only
    on the chips whose headers define [POWER_RESETREAS_*_Msk]; [None]
    stands for a mask that is not defined, so that the corresponding
    [#if] branch is compiled out. *)
Record resetreas_masks : Set := {
  NRF_POWER_RESETREAS_RESETPIN_MASK : Z;
  NRF_POWER_RESETREAS_DOG_MASK : Z;
  NRF_POWER_RESETREAS_SREQ_MASK : Z;
  NRF_POWER_RESETREAS_LOCKUP_MASK : Z;
  NRF_POWER_RESETREAS_OFF_MASK : Z;
  NRF_POWER_RESETREAS_DIF_MASK : Z;
  NRF_POWER_RESETREAS_LPCOMP_MASK : option Z;
  NRF_POWER_RESETREAS_NFC_MASK : option Z;
  NRF_POWER_RESETREAS_VBUS_MASK : option Z
}.

(** The POWER peripheral, as far as this file reads it. *)
Record nrf_power : Set := { RESETREAS : Z }.

Definition nrf_power_resetreas_get (p : nrf_power) : Z := RESETREAS p.

(** [reason == MASK] for a mask under [#if defined(...)]. *)
Definition eq_defined (reason : Z) (mask : option Z) : bool :=
  match mask with
  | Some m => reason =? m
  | None => false
  end.

Definition hal_reset_reason_get (m : resetreas_masks) (p : nrf_power)
  : reset_reason_t :=
  let reason := nrf_power_resetreas_get p in
  if reason =? NRF_POWER_RESETREAS_RESETPIN_MASK m then RESET_REASON_PIN_RESET
  else if reason =? NRF_POWER_RESETREAS_DOG_MASK m then RESET_REASON_WATCHDOG
  else if reason =? NRF_POWER_RESETREAS_SREQ_MASK m then RESET_REASON_SOFTWARE
  else if reason =? NRF_POWER_RESETREAS_LOCKUP_MASK m then RESET_REASON_LOCKUP
  else if reason =? NRF_POWER_RESETREAS_OFF_MASK m then RESET_REASON_PLATFORM
  else if reason =? NRF_POWER_RESETREAS_DIF_MASK m then RESET_REASON_PLATFORM
  else if eq_defined reason (NRF_POWER_RESETREAS_LPCOMP_MASK m) then RESET_REASON_PLATFORM
  else if eq_defined reason (NRF_POWER_RESETREAS_NFC_MASK m) then RESET_REASON_PLATFORM
  else if eq_defined reason (NRF_POWER_RESETREAS_VBUS_MASK m) then RESET_REASON_PLATFORM
  else if negb (reason =? 0) then RESET_REASON_MULTIPLE
  else RESET_REASON_UNKNOWN.

Definition hal_reset_reason_get_raw (p : nrf_power) : Z :=
  nrf_power_resetreas_get p.

(** The recognized single-reason masks with the classification the
    comments of the function give them, in the order of the tests. *)
Definition defined_mask (mask : option Z) (r : reset_reason_t)
  : list (Z * reset_reason_t) :=
  match mask with
  | Some m => [(m, r)]
  | None => []
  end.

Definition recognized (m : resetreas_masks) : list (Z * reset_reason_t) :=
  [ (NRF_POWER_RESETREAS_RESETPIN_MASK m, RESET_REASON_PIN_RESET);
    (NRF_POWER_RESETREAS_DOG_MASK m, RESET_REASON_WATCHDOG);
    (NRF_POWER_RESETREAS_SREQ_MASK m, RESET_REASON_SOFTWARE);
    (NRF_POWER_RESETREAS_LOCKUP_MASK m, RESET_REASON_LOCKUP);
    (NRF_POWER_RESETREAS_OFF_MASK m, RESET_REASON_PLATFORM);
    (NRF_POWER_RESETREAS_DIF_MASK m, RESET_REASON_PLATFORM) ]
  ++ defined_mask (NRF_POWER_RESETREAS_LPCOMP_MASK m) RESET_REASON_PLATFORM
  ++ defined_mask (NRF_POWER_RESETREAS_NFC_MASK m) RESET_REASON_PLATFORM
  ++ defined_mask (NRF_POWER_RESETREAS_VBUS_MASK m) RESET_REASON_PLATFORM.

Definition masks (m : resetreas_masks) : list Z := (recognized m).*1.

(** The classification of a register value that is one of the
    recognized masks. *)
Definition classification (m : resetreas_masks) (reason : Z)
  : option reset_reason_t :=
  snd <$> List.find (fun e => reason =? e.1) (recognized m).

(** What the hardware guarantees of the masks: every reason has a bit
    field of its own, so the masks are pairwise different and none is
    zero. *)
Definition masks_distinct (m : resetreas_masks) : Prop :=
  NoDup (masks m) /\ 0 ∉ masks m.

(** The bit positions of the nRF52840 register (RESETPIN 0, DOG 1,
    SREQ 2, LOCKUP 3, OFF 16, LPCOMP 17, DIF 18, NFC 19, VBUS 20),
    used to instantiate the parameters on a concrete chip. *)
Definition nrf52840_masks : resetreas_masks := {|
  NRF_POWER_RESETREAS_RESETPIN_MASK := Z.shiftl 1 0;
  NRF_POWER_RESETREAS_DOG_MASK := Z.shiftl 1 1;
  NRF_POWER_RESETREAS_SREQ_MASK := Z.shiftl 1 2;
  NRF_POWER_RESETREAS_LOCKUP_MASK := Z.shiftl 1 3;
  NRF_POWER_RESETREAS_OFF_MASK := Z.shiftl 1 16;
  NRF_POWER_RESETREAS_DIF_MASK := Z.shiftl 1 18;
  NRF_POWER_RESETREAS_LPCOMP_MASK := Some (Z.shiftl 1 17);
  NRF_POWER_RESETREAS_NFC_MASK := Some (Z.shiftl 1 19);
  NRF_POWER_RESETREAS_VBUS_MASK := Some (Z.shiftl 1 20)
|}.

End ResetReason.

(** ** watchdog_api.c *)

Module Watchdog.

Inductive watchdog_status_t : Set :=
| WATCHDOG_STATUS_OK
| WATCHDOG_STATUS_NOT_SUPPORTED
| WATCHDOG_STATUS_INVALID_ARGUMENT.

(** [watchdog_config_t]: the timeout is a [uint32_t]. *)
Record watchdog_config_t : Set := { timeout_ms : Z }.

Record watchdog_features_t : Set := {
  max_timeout : Z;
  update_config : bool;
  disable_watchdog : bool
}.

Definition nordic_nrf5_features : watchdog_features_t := {|
  max_timeout := u32 (u32 (UINT32_MAX / 32768) * 1000);
  update_config := true;
  disable_watchdog := true
|}.

(** Values of the CONFIG register (nrf_wdt.h); the register comes out
    of reset with the watchdog running while the CPU sleeps. *)
Inductive nrf_wdt_behaviour_t : Set :=
| NRF_WDT_BEHAVIOUR_RUN_SLEEP
| NRF_WDT_BEHAVIOUR_RUN_HALT
| NRF_WDT_BEHAVIOUR_RUN_SLEEP_HALT
| NRF_WDT_BEHAVIOUR_PAUSE_SLEEP_HALT.

(** The WDT peripheral and its interrupt line, as the calls of this
    file drive them. *)
Record nrf_wdt : Set := {
  wdt_behaviour : nrf_wdt_behaviour_t;
  wdt_reload_value : Z;
  wdt_rr0_enabled : bool;
  wdt_int_timeout : bool;
  wdt_irq_enabled : bool;
  wdt_started : bool;
  wdt_rr0_requests : nat
}.

Record state : Set := {
  nordic_nrf5_watchdog_timeout_ms : Z;
  wdt : nrf_wdt
}.

Definition initial_state : state := {|
  nordic_nrf5_watchdog_timeout_ms := 0;
  wdt := {| wdt_behaviour := NRF_WDT_BEHAVIOUR_RUN_SLEEP;
            wdt_reload_value := UINT32_MAX;
            wdt_rr0_enabled := true;
            wdt_int_timeout := false;
            wdt_irq_enabled := false;
            wdt_started := false;
            wdt_rr0_requests := 0%nat |}
|}.

(** [(config->timeout_ms * 32768) / 1000]: both operands of the product
    are 32 bits wide, so the product is taken modulo 2^32 before the
    division and before the widening to the 64-bit [timeout_ticks]. *)
Definition timeout_ticks (config : watchdog_config_t) : Z :=
  u32 (timeout_ms config * 32768) / 1000.

Definition hal_watchdog_init (config : watchdog_config_t) (s : state)
  : watchdog_status_t * state :=
  let ticks := timeout_ticks config in
  if (0 <? ticks) && (ticks <? UINT32_MAX) then
    (WATCHDOG_STATUS_OK,
     {| nordic_nrf5_watchdog_timeout_ms := timeout_ms config;
        wdt := {| wdt_behaviour := NRF_WDT_BEHAVIOUR_RUN_SLEEP;
                  wdt_reload_value := u32 ticks;
                  wdt_rr0_enabled := true;
                  wdt_int_timeout := true;
                  wdt_irq_enabled := true;
                  wdt_started := true;
                  wdt_rr0_requests := wdt_rr0_requests (wdt s) |} |})
  else (WATCHDOG_STATUS_INVALID_ARGUMENT, s).

Definition hal_watchdog_kick (s : state) : state :=
  let w := wdt s in
  {| nordic_nrf5_watchdog_timeout_ms := nordic_nrf5_watchdog_timeout_ms s;
     wdt := {| wdt_behaviour := wdt_behaviour w;
               wdt_reload_value := wdt_reload_value w;
               wdt_rr0_enabled := wdt_rr0_enabled w;
               wdt_int_timeout := wdt_int_timeout w;
               wdt_irq_enabled := wdt_irq_enabled w;
               wdt_started := wdt_started w;
               wdt_rr0_requests := S (wdt_rr0_requests w) |} |}.

Definition hal_watchdog_stop (s : state) : watchdog_status_t * state :=
  let w := wdt s in
  (WATCHDOG_STATUS_OK,
   {| nordic_nrf5_watchdog_timeout_ms := nordic_nrf5_watchdog_timeout_ms s;
      wdt := {| wdt_behaviour := wdt_behaviour w;
                wdt_reload_value := wdt_reload_value w;
                wdt_rr0_enabled := wdt_rr0_enabled w;
                wdt_int_timeout := false;
                wdt_irq_enabled := wdt_irq_enabled w;
                wdt_started := wdt_started w;
                wdt_rr0_requests := wdt_rr0_requests w |} |}).

Definition hal_watchdog_get_reload_value (s : state) : Z :=
  nordic_nrf5_watchdog_timeout_ms s.

Definition hal_watchdog_get_platform_features : watchdog_features_t :=
  nordic_nrf5_features.

End Watchdog.

(** ** QUECTEL_BC95_CellularContext.h *)

Module ClassDecl.

Inductive access : Set := Public | Protected | Private.

Inductive member_kind : Set := Constructor | Destructor | Method.

(** A member declaration of a class body. *)
Record member : Set := {
  m_name : string;
  m_kind : member_kind;
  m_virtual : bool;
  m_access : access
}.

Record class_decl : Set := {
  c_name : string;
  c_base : string;
  c_members : list member
}.

(** The class body of the header, member by member. *)
Definition QUECTEL_BC95_CellularContext : class_decl := {|
  c_name := "QUECTEL_BC95_CellularContext";
  c_base := "AT_CellularContext";
  c_members :=
    [ {| m_name := "QUECTEL_BC95_CellularContext"; m_kind := Constructor;
         m_virtual := false; m_access := Public |};
      {| m_name := "~QUECTEL_BC95_CellularContext"; m_kind := Destructor;
         m_virtual := true; m_access := Public |};
      {| m_name := "get_stack"; m_kind := Method;
         m_virtual := true; m_access := Protected |};
      {| m_name := "stack_type_supported"; m_kind := Method;
         m_virtual := true; m_access := Protected |} ]
|}.

(** An operation of the context: a virtual member function.  The
    constructor and the destructor, which every class has of its own,
    are not operations. *)
Definition is_operation (mb : member) : bool :=
  match m_kind mb with
  | Method => m_virtual mb
  | _ => false
  end.

(** The operations of the base class that the class body redeclares. *)
Definition overridden (c : class_decl) : list string :=
  m_name <$> List.filter is_operation (c_members c).

Section Dispatch.
(** What an operation name is bound to (a member function body); the
    bodies themselves live in translation units outside the header. *)
Variable Impl : Type.

(** C++ virtual dispatch: the table of a derived class is the table of
    its base in which each redeclared operation is bound to the
    definition of the derived class. *)
Definition derive (own : string -> Impl) (c : class_decl)
    (base : gmap string Impl) : gmap string Impl :=
  foldr (fun op vt => <[op := own op]> vt) base (overridden c).

End Dispatch.

End ClassDecl.

(** ** The AT command engine

    The engine (ATHandler in the repository) is not part of the sources;
    the header above only takes a reference to it. *)

Module ATEngine.

Local Close Scope Z_scope.
Local Open Scope nat_scope.

(** *** Character stream *)

(** Modelled from the spec: the character stream adapter, which is an
    external collaborator (section 4.1: [read_line(timeout) -> line or
    timeout-failure], [flush-pending-input()]).  A stream is the lines
    the modem is going to emit, each with the delay in milliseconds
    after the line before it; a delay of 0 is a line that has arrived
    already and waits in the input buffer. *)
Definition Stream : Type := list (nat * string).

(** Time passes without anything being read. *)
Fixpoint advance (t : nat) (s : Stream) : Stream :=
  match s with
  | [] => []
  | (d, l) :: rest =>
      if d <=? t then (0, l) :: advance (t - d) rest
      else (d - t, l) :: rest
  end.

Fixpoint flush_input (s : Stream) : Stream :=
  match s with
  | (0, _) :: rest => flush_input rest
  | _ => s
  end.


Definition total_delay (s : Stream) : nat := list_sum (s.*1).

(** *** Data model (section 3) *)

(** Modelled from the spec: the Command of section 3 ("a textual
    payload, an expected terminal token set, a per-command timeout, an
    optional multi-line-response indicator").  A command without a
    timeout of its own runs under the default of the engine. *)
Record Command : Type := {
  cmd_text : string;
  expected_success_tokens : list string;
  cmd_timeout : option nat;
  cmd_multi_line : bool
}.

(** Modelled from the spec: the result of [send] (section 4.2). *)
Inductive result : Type :=
| OK_with_payload (lines : list string)
| DEVICE_ERROR (code : nat)
| TIMEOUT
| PROTOCOL_DESYNC.

(** Modelled from the spec: the Error State of section 3 ("none, stream
    timeout, device-reported error, parse/protocol-sync failure"). *)
Inductive ErrorState : Type :=
| ERR_NONE
| ERR_TIMEOUT
| ERR_DEVICE (code : nat)
| ERR_PROTOCOL.

(** A URC handler is a callback of the owner; the model names it and
    records its invocations. *)
Definition handler : Type := nat.

(** One invocation of a handler: the number of the line within the
    exchange, the handler, and the line handed to it. *)
Record urc_call : Type := {
  call_line_no : nat;
  call_handler : handler;
  call_line : string
}.

(** Modelled from the spec: the engine state.  [sync_check cmd seen l]
    tells whether the final-result line [l], read after the lines
    [seen], corresponds to the issued command; the specification says
    only that a mismatch is "detected by a sequence/echo mismatch", so
    the check is a component of the engine that the model leaves
    open. *)
Record Engine : Type := {
  stream : Stream;
  written : list string;
  urcs : gmap string handler;
  last_error : ErrorState;
  default_timeout : nat;
  saved_timeout : option nat;
  invoked : list urc_call;
  sync_check : string -> list string -> string -> bool
}.

(** *** Line classification (sections 3 and 6) *)

Definition digit_of (a : ascii) : option nat :=
  let n := nat_of_ascii a in
  if (48 <=? n) && (n <=? 57) then Some (n - 48) else None.

Fixpoint parse_digits (acc : nat) (s : string) : option nat :=
  match s with
  | EmptyString => Some acc
  | String a s' =>
      match digit_of a with
      | Some d => parse_digits (10 * acc + d) s'
      | None => None
      end
  end.

Fixpoint skip_spaces (s : string) : string :=
  match s with
  | String a s' => if Ascii.eqb a " "%char then skip_spaces s' else s
  | EmptyString => s
  end.

(** The number [<n>] of an error line, after optional blanks. *)
Definition parse_code (s : string) : option nat :=
  match skip_spaces s with
  | EmptyString => None
  | s' => parse_digits 0 s'
  end.

Definition after_prefix (p s : string) : option string :=
  if String.prefix p s
  then Some (substring (String.length p) (String.length s - String.length p) s)
  else None.

(** Modelled from the spec: the error final results of the wire
    protocol (section 6: [ERROR], [+CME ERROR:<n>], [+CMS ERROR:<n>]).
    The bare [ERROR] carries no number; it is reported with code 0. *)
Definition error_code (l : string) : option nat :=
  if String.eqb l "ERROR" then Some 0
  else match after_prefix "+CME ERROR:" l with
       | Some r => parse_code r
       | None =>
           match after_prefix "+CMS ERROR:" l with
           | Some r => parse_code r
           | None => None
           end
       end.

Definition is_success (c : Command) (l : string) : bool :=
  existsb (String.eqb l) (expected_success_tokens c).

(** Modelled from the spec: the classes of a response line that the
    reading loop tells apart (section 3): a final result is one of the
    terminal tokens the command expects (normally [OK]) or an error
    result; every other line is intermediate or unsolicited. *)
Inductive line_class : Type :=
| final_success
| final_error (code : nat)
| non_final.

Definition classify (c : Command) (l : string) : line_class :=
  if is_success c l then final_success
  else match error_code l with
       | Some code => final_error code
       | None => non_final
       end.

Definition is_final (c : Command) (l : string) : bool :=
  match classify c l with
  | non_final => false
  | _ => true
  end.

(** *** URC dispatch *)

(** Modelled from the spec: "URC Registration — mapping from a line
    prefix to a handler invoked when an unsolicited line matches": the
    registrations whose prefix the line begins with. *)
Definition matching (u : gmap string handler) (l : string)
  : list (string * handler) :=
  List.filter (fun ph => String.prefix ph.1 l) (map_to_list u).

(** The handlers that a line is dispatched to.  A handler that is
    registered under several prefixes of the line is in the list once:
    a matching line "invokes the handler exactly once" (section 8). *)
Definition handlers_for (u : gmap string handler) (l : string)
  : list handler :=
  remove_dups ((matching u l).*2).

Definition is_urc (u : gmap string handler) (l : string) : bool :=
  match matching u l with
  | [] => false
  | _ :: _ => true
  end.

Definition dispatch (u : gmap string handler) (n : nat) (l : string)
  : list urc_call :=
  (fun h => {| call_line_no := n; call_handler := h; call_line := l |})
  <$> handlers_for u l.

(** *** send *)

Record exchange : Type := {
  x_result : result;
  x_calls : list urc_call;
  x_rest : Stream
}.

(** Modelled from the spec: the reading phase of [send] (section 4.2):
    "reads lines until a final-result token or timeout.  Each non-final
    line is classified: if it matches a currently-registered URC prefix,
    it is dispatched immediately to the handler [...] and excluded from
    the command's payload; otherwise it is accumulated as payload for
    the caller."  A final-result line that does not correspond to the
    command is PROTOCOL_DESYNC, upon which pending input is flushed.
    [budget] is what is left of the timeout, [n] the number of the next
    line, [seen] the lines read so far and [payload] those kept for the
    caller. *)
Fixpoint read_response (u : gmap string handler)
    (check : string -> list string -> string -> bool) (c : Command)
    (budget n : nat) (seen payload : list string) (s : Stream)
  : exchange :=
  match s with
  | [] => {| x_result := TIMEOUT; x_calls := []; x_rest := [] |}
  | (d, l) :: rest =>
      if d <=? budget then
        match classify c l with
        | non_final =>
            let x := read_response u check c (budget - d) (S n)
                       (seen ++ [l])
                       (if is_urc u l then payload else payload ++ [l])
                       rest in
            {| x_result := x_result x;
               x_calls := dispatch u n l ++ x_calls x;
               x_rest := x_rest x |}
        | cls =>
            if check (cmd_text c) seen l then
              {| x_result := match cls with
                             | final_error code => DEVICE_ERROR code
                             | _ => OK_with_payload payload
                             end;
                 x_calls := []; x_rest := rest |}
            else
              {| x_result := PROTOCOL_DESYNC; x_calls := [];
                 x_rest := flush_input rest |}
        end
      else
        {| x_result := TIMEOUT; x_calls := [];
           x_rest := (d - budget, l) :: rest |}
  end.

Definition error_of (r : result) : ErrorState :=
  match r with
  | OK_with_payload _ => ERR_NONE
  | DEVICE_ERROR code => ERR_DEVICE code
  | TIMEOUT => ERR_TIMEOUT
  | PROTOCOL_DESYNC => ERR_PROTOCOL
  end.

(** Modelled from the spec: the Error State is the "last error
    code/class observed by the engine [...]; cleared explicitly by the
    caller [...] (never auto-cleared)": an exchange that fails records
    its error, in the place of an older one; a success leaves the state
    as it is. *)
Definition record_error (old : ErrorState) (r : result) : ErrorState :=
  match r with
  | OK_with_payload _ => old
  | _ => error_of r
  end.

Definition effective_timeout (e : Engine) (c : Command) : nat :=
  match cmd_timeout c with
  | Some t => t
  | None => default_timeout e
  end.

Definition CR : string := String (ascii_of_nat 13) EmptyString.

(** Modelled from the spec: [send] (section 4.2): "Writes the command,
    then reads lines until a final-result token or timeout". *)
Definition send (e : Engine) (c : Command) : result * Engine :=
  let x := read_response (urcs e) (sync_check e) c
             (effective_timeout e c) 0 [] [] (stream e) in
  (x_result x,
   {| stream := x_rest x;
      written := written e ++ [String.append (cmd_text c) CR];
      urcs := urcs e;
      last_error := record_error (last_error e) (x_result x);
      default_timeout := default_timeout e;
      saved_timeout := saved_timeout e;
      invoked := invoked e ++ x_calls x;
      sync_check := sync_check e |}).

(** Modelled from the spec: [register_urc]/[unregister_urc]
    ("idempotent; registering the same prefix twice replaces the
    handler (last write wins)"). *)
Definition register_urc (p : string) (h : handler) (e : Engine) : Engine :=
  {| stream := stream e; written := written e;
     urcs := <[p := h]> (urcs e);
     last_error := last_error e; default_timeout := default_timeout e;
     saved_timeout := saved_timeout e; invoked := invoked e;
     sync_check := sync_check e |}.

Definition unregister_urc (p : string) (e : Engine) : Engine :=
  {| stream := stream e; written := written e;
     urcs := delete p (urcs e);
     last_error := last_error e; default_timeout := default_timeout e;
     saved_timeout := saved_timeout e; invoked := invoked e;
     sync_check := sync_check e |}.

(** Modelled from the spec: [set_timeout]/[restore_timeout] ("scoped
    override [...], must be restorable"): the default in force before
    the first override is kept and put back. *)
Definition set_timeout (t : nat) (e : Engine) : Engine :=
  {| stream := stream e; written := written e; urcs := urcs e;
     last_error := last_error e; default_timeout := t;
     saved_timeout := Some (match saved_timeout e with
                            | Some t0 => t0
                            | None => default_timeout e
                            end);
     invoked := invoked e; sync_check := sync_check e |}.

Definition restore_timeout (e : Engine) : Engine :=
  {| stream := stream e; written := written e; urcs := urcs e;
     last_error := last_error e;
     default_timeout := match saved_timeout e with
                        | Some t0 => t0
                        | None => default_timeout e
                        end;
     saved_timeout := None;
     invoked := invoked e; sync_check := sync_check e |}.

Definition get_last_error (e : Engine) : ErrorState := last_error e.

Definition clear_error (e : Engine) : Engine :=
  {| stream := stream e; written := written e; urcs := urcs e;
     last_error := ERR_NONE; default_timeout := default_timeout e;
     saved_timeout := saved_timeout e; invoked := invoked e;
     sync_check := sync_check e |}.

(** Flushing the input and letting time pass act on the stream only. *)
Definition with_stream (s : Stream) (e : Engine) : Engine :=
  {| stream := s; written := written e; urcs := urcs e;
     last_error := last_error e; default_timeout := default_timeout e;
     saved_timeout := saved_timeout e; invoked := invoked e;
     sync_check := sync_check e |}.

(** What a caller can do with an engine. *)
Inductive call : Type :=
| call_send (c : Command)
| call_register_urc (p : string) (h : handler)
| call_unregister_urc (p : string)
| call_set_timeout (t : nat)
| call_restore_timeout
| call_clear_error
| call_flush_input
| call_wait (t : nat).

Definition perform (k : call) (e : Engine) : Engine :=
  match k with
  | call_send c => (send e c).2
  | call_register_urc p h => register_urc p h e
  | call_unregister_urc p => unregister_urc p e
  | call_set_timeout t => set_timeout t e
  | call_restore_timeout => restore_timeout e
  | call_clear_error => clear_error e
  | call_flush_input => with_stream (flush_input (stream e)) e
  | call_wait t => with_stream (advance t (stream e)) e
  end.



(** An engine with nothing registered and nothing recorded, whose
    synchronisation check accepts every final line. *)
Definition idle_engine (s : Stream) : Engine :=
  {| stream := s; written := []; urcs := ∅; last_error := ERR_NONE;
     default_timeout := 1000; saved_timeout := None; invoked := [];
     sync_check := fun _ _ _ => true |}.

Definition AT (text : string) (timeout : nat) : Command :=
  {| cmd_text := text; expected_success_tokens := ["OK"%string];
     cmd_timeout := Some timeout; cmd_multi_line := false |}.



(** An exchange with an unsolicited registration report between the
    reply of the command and its final result: the handler 7 is
    registered for [+CEREG:], and for the shorter prefix [+C] as
    well. *)
Definition example_engine : Engine :=
  register_urc "+C" 7
    (register_urc "+CEREG:" 7
       (idle_engine [(2, "data"); (3, "+CEREG: 1"); (1, "OK")]%string)).



End ATEngine.

(** ** The cellular context state machine

    The generic context (AT_CellularContext in the repository) and the
    bodies of the BC95 overrides are not part of the sources. *)

Module CellularContext.

Import ATEngine.
Local Close Scope Z_scope.
Local Open Scope nat_scope.

(** The stack types of section 3: IPv4, IPv6 and dual stack. *)
Inductive nsapi_ip_stack_t : Set :=
| IPV4_STACK
| IPV6_STACK
| IPV4V6_STACK.

(** Modelled from the spec: the states of section 4.3. *)
Inductive ctx_state : Set :=
| DETACHED
| ATTACHING
| STACK_NEGOTIATED
| ACTIVATING
| ACTIVE
| DEACTIVATING.

(** Modelled from the spec: the error taxonomy of section 7. *)
Inductive failure : Set :=
| FAILED_TIMEOUT
| FAILED_DEVICE_ERROR (code : nat)
| FAILED_PROTOCOL_DESYNC
| UNSUPPORTED_STACK_TYPE
| NOT_ACTIVE
| CONTRACT_VIOLATION.

Definition failure_of (r : result) : option failure :=
  match r with
  | OK_with_payload _ => None
  | DEVICE_ERROR code => Some (FAILED_DEVICE_ERROR code)
  | TIMEOUT => Some FAILED_TIMEOUT
  | PROTOCOL_DESYNC => Some FAILED_PROTOCOL_DESYNC
  end.

(** What a vendor variant builds the network stack of a context on
    (for instance a restricted socket backend). *)
Definition NetworkStack : Type := string.

(** Modelled from the spec: the vendor specialization layer of section
    4.4, "polymorphic over the capability set [{ stack_type_supported
    (type) -> bool, get_stack() -> handle }]".  [get_stack] receives the
    context id and the stack type the stack is built for. *)
Record Variant : Type := {
  stack_type_supported : nsapi_ip_stack_t -> bool;
  get_stack : nat -> nsapi_ip_stack_t -> NetworkStack
}.

(** The handle handed to the IP layer: the stack of the variant, bound
    to a context and to a stack type. *)
Record stack_handle : Type := {
  h_context : nat;
  h_stack_type : nsapi_ip_stack_t;
  h_stack : NetworkStack
}.

(** Modelled from the spec: the Cellular Context of section 3 ("id, APN
    (or none for default), requested stack type, negotiated stack type
    actually granted, state, [...] owned network stack handle once
    active"), with the number of references to the handle that the IP
    layer holds. *)
Record Context : Type := {
  ctx_id : nat;
  apn : option string;
  stack_type_requested : nsapi_ip_stack_t;
  stack_type_granted : option nsapi_ip_stack_t;
  state : ctx_state;
  stack : option stack_handle;
  stack_references : nat
}.

Definition new_context (id : nat) (a : option string)
    (t : nsapi_ip_stack_t) : Context :=
  {| ctx_id := id; apn := a; stack_type_requested := t;
     stack_type_granted := None; state := DETACHED; stack := None;
     stack_references := 0 |}.

Definition enter (s : ctx_state) (c : Context) : Context :=
  {| ctx_id := ctx_id c; apn := apn c;
     stack_type_requested := stack_type_requested c;
     stack_type_granted := stack_type_granted c; state := s;
     stack := stack c; stack_references := stack_references c |}.

(** Back to DETACHED: what was negotiated and handed out is gone. *)
Definition detach (c : Context) : Context :=
  {| ctx_id := ctx_id c; apn := apn c;
     stack_type_requested := stack_type_requested c;
     stack_type_granted := None; state := DETACHED; stack := None;
     stack_references := 0 |}.

Definition grant (t : nsapi_ip_stack_t) (c : Context) : Context :=
  {| ctx_id := ctx_id c; apn := apn c;
     stack_type_requested := stack_type_requested c;
     stack_type_granted := Some t; state := STACK_NEGOTIATED;
     stack := stack c; stack_references := stack_references c |}.

(** The command set the context speaks.  The specification names the
    attach command of its scenario ([AT+CGATT=1]) and leaves the text of
    the others, and the form in which the modem acknowledges the
    protocol type, to the implementation: they are parameters. *)
Record command_set : Type := {
  attach_commands : list Command;
  pdp_command : Context -> Command;
  activation_command : Context -> Command;
  deactivation_command : Context -> Command;
  acknowledged_stack_type : list string -> option nsapi_ip_stack_t
}.

(** Why a state is entered: by the normal course of an operation, or
    because the operation failed. *)
Inductive cause : Set := forward | failed.

(** What one call does: its failure if any, the context and the engine
    after it, the states entered during the call in order, and the
    reply of the modem that decided it when one was awaited. *)
Record outcome : Type := {
  o_failure : option failure;
  o_context : Context;
  o_engine : Engine;
  o_trail : list (cause * ctx_state);
  o_reply : option result
}.

(** The specification defines every operation from its source state
    only.  A call in another state is caller misuse: it is rejected
    without effect. *)
Definition rejected (f : failure) (c : Context) (e : Engine) : outcome :=
  {| o_failure := Some f; o_context := c; o_engine := e; o_trail := [];
     o_reply := None |}.

(** The commands of a sequence, up to the first that fails. *)
Fixpoint send_all (e : Engine) (cmds : list Command) : result * Engine :=
  match cmds with
  | [] => (OK_with_payload [], e)
  | k :: rest =>
      match send e k with
      | (OK_with_payload _, e') => send_all e' rest
      | failing => failing
      end
  end.

Section Operations.

Variable vendor : Variant.
Variable cs : command_set.

(** Modelled from the spec: "DETACHED --attach()--> ATTACHING: issues
    network-registration/attach command sequence through the Engine;
    on timeout or device error, stays DETACHED and surfaces the
    classified error". *)
Definition attach (c : Context) (e : Engine) : outcome :=
  match state c with
  | DETACHED =>
      let (r, e') := send_all e (attach_commands cs) in
      match failure_of r with
      | None =>
          {| o_failure := None; o_context := enter ATTACHING c;
             o_engine := e'; o_trail := [(forward, ATTACHING)];
             o_reply := Some r |}
      | Some f =>
          {| o_failure := Some f; o_context := c; o_engine := e';
             o_trail := []; o_reply := Some r |}
      end
  | _ => rejected CONTRACT_VIOLATION c e
  end.

(** Modelled from the spec: "ATTACHING --negotiate_stack()-->
    STACK_NEGOTIATED: queries/sets the PDP context's protocol type",
    with the outcome of the scenario of section 8 when the variant
    does not support the requested type: "negotiate_stack() fails
    UNSUPPORTED_STACK_TYPE, Context remains ATTACHING" (the transition
    list of section 4.3 says of the same failure that the context
    "returns to DETACHED"; the model follows the scenario, with which
    the state list of section 4.3 agrees: only ACTIVATING and
    DEACTIVATING fall back to DETACHED).  The type recorded is the
    one the modem acknowledges in its reply. *)
Definition negotiate_stack (c : Context) (e : Engine) : outcome :=
  match state c with
  | ATTACHING =>
      if stack_type_supported vendor (stack_type_requested c) then
        let (r, e') := send e (pdp_command cs c) in
        match r with
        | OK_with_payload lines =>
            match acknowledged_stack_type cs lines with
            | Some t =>
                {| o_failure := None; o_context := grant t c;
                   o_engine := e';
                   o_trail := [(forward, STACK_NEGOTIATED)];
                   o_reply := Some r |}
            | None =>
                {| o_failure := Some FAILED_PROTOCOL_DESYNC;
                   o_context := c; o_engine := e'; o_trail := [];
                   o_reply := Some r |}
            end
        | _ =>
            {| o_failure := failure_of r; o_context := c;
               o_engine := e'; o_trail := []; o_reply := Some r |}
        end
      else rejected UNSUPPORTED_STACK_TYPE c e
  | _ => rejected CONTRACT_VIOLATION c e
  end.

(** Modelled from the spec: "STACK_NEGOTIATED --activate()-->
    ACTIVATING --(success)--> ACTIVE: issues the activation command
    with APN parameters [...].  On DEVICE_ERROR the context returns
    to DETACHED"; "ACTIVATING/DEACTIVATING may also transition to
    DETACHED directly on failure". *)
Definition activate (c : Context) (e : Engine) : outcome :=
  match state c with
  | STACK_NEGOTIATED =>
      let (r, e') := send e (activation_command cs c) in
      match failure_of r with
      | None =>
          {| o_failure := None; o_context := enter ACTIVE c;
             o_engine := e';
             o_trail := [(forward, ACTIVATING); (forward, ACTIVE)];
             o_reply := Some r |}
      | Some f =>
          {| o_failure := Some f; o_context := detach c;
             o_engine := e';
             o_trail := [(forward, ACTIVATING); (failed, DETACHED)];
             o_reply := Some r |}
      end
  | _ => rejected CONTRACT_VIOLATION c e
  end.

(** Modelled from the spec: "ACTIVE --get_stack()--> ACTIVE (no
    transition): lazily constructs/returns the network stack handle
    bound to this context; calling it before ACTIVE fails with
    NOT_ACTIVE".  The handle is built on the first call, on the stack
    of the variant, for the stack type granted. *)
Definition acquire_stack (c : Context)
  : (failure + stack_handle) * Context :=
  match state c with
  | ACTIVE =>
      let built :=
        match stack c with
        | Some h => Some h
        | None =>
            match stack_type_granted c with
            | Some t =>
                Some {| h_context := ctx_id c; h_stack_type := t;
                        h_stack := get_stack vendor (ctx_id c) t |}
            | None => None
            end
        end in
      match built with
      | Some h =>
          (inr h,
           {| ctx_id := ctx_id c; apn := apn c;
              stack_type_requested := stack_type_requested c;
              stack_type_granted := stack_type_granted c;
              state := state c; stack := Some h;
              stack_references := S (stack_references c) |})
      | None => (inl NOT_ACTIVE, c)
      end
  | _ => (inl NOT_ACTIVE, c)
  end.

(** The IP layer gives a reference back. *)
Definition release_stack (c : Context) : Context :=
  {| ctx_id := ctx_id c; apn := apn c;
     stack_type_requested := stack_type_requested c;
     stack_type_granted := stack_type_granted c; state := state c;
     stack := stack c;
     stack_references := Nat.pred (stack_references c) |}.

(** Modelled from the spec: "ACTIVE --deactivate()--> DEACTIVATING
    --> DETACHED: requires the caller to have released any stack
    handle first"; "deactivate() while a stack handle is outstanding
    is rejected with CONTRACT_VIOLATION". *)
Definition deactivate (c : Context) (e : Engine) : outcome :=
  match state c with
  | ACTIVE =>
      match stack_references c with
      | 0 =>
          let (r, e') := send e (deactivation_command cs c) in
          {| o_failure := failure_of r; o_context := detach c;
             o_engine := e';
             o_trail :=
               [(forward, DEACTIVATING);
                (match failure_of r with
                 | None => forward
                 | Some _ => failed
                 end, DETACHED)];
             o_reply := Some r |}
      | S _ => rejected CONTRACT_VIOLATION c e
      end
  | _ => rejected CONTRACT_VIOLATION c e
  end.

(** *** Executions *)

Inductive call : Type :=
| call_attach
| call_negotiate_stack
| call_activate
| call_acquire_stack
| call_release_stack
| call_deactivate
| call_engine (k : ATEngine.call).

Definition perform (k : call) (c : Context) (e : Engine) : outcome :=
  match k with
  | call_attach => attach c e
  | call_negotiate_stack => negotiate_stack c e
  | call_activate => activate c e
  | call_acquire_stack =>
      let (r, c') := acquire_stack c in
      {| o_failure := match r with inl f => Some f | inr _ => None end;
         o_context := c'; o_engine := e; o_trail := [];
         o_reply := None |}
  | call_release_stack =>
      {| o_failure := None; o_context := release_stack c;
         o_engine := e; o_trail := []; o_reply := None |}
  | call_deactivate => deactivate c e
  | call_engine k' =>
      {| o_failure := None; o_context := c;
         o_engine := ATEngine.perform k' e; o_trail := [];
         o_reply := None |}
  end.

(** An execution: the calls made on a context, each with what it
    did, oldest first. *)
Fixpoint run (ks : list call) (c : Context) (e : Engine)
  : list (call * outcome) :=
  match ks with
  | [] => []
  | k :: rest =>
      let o := perform k c e in
      (k, o) :: run rest (o_context o) (o_engine o)
  end.

(** The context and the engine at the end of an execution. *)
Fixpoint final (ks : list call) (c : Context) (e : Engine)
  : Context * Engine :=
  match ks with
  | [] => (c, e)
  | k :: rest =>
      let o := perform k c e in
      final rest (o_context o) (o_engine o)
  end.

(** The states a context goes through in an execution, with the
    cause of each step. *)
Definition steps (h : list (call * outcome)) : list (cause * ctx_state) :=
  concat (o_trail <$> h.*2).

Definition visited (c : Context) (h : list (call * outcome))
  : list ctx_state :=
  state c :: (steps h).*2.

End Operations.

(** The successor of a state in the cycle of section 4.3. *)
Definition next (s : ctx_state) : ctx_state :=
  match s with
  | DETACHED => ATTACHING
  | ATTACHING => STACK_NEGOTIATED
  | STACK_NEGOTIATED => ACTIVATING
  | ACTIVATING => ACTIVE
  | ACTIVE => DEACTIVATING
  | DEACTIVATING => DETACHED
  end.

(** A step the state list of section 4.3 allows: to the successor in
    the normal course, or from ACTIVATING or DEACTIVATING to DETACHED
    on failure. *)
Definition lawful (s : ctx_state) (step : cause * ctx_state) : Prop :=
  match step.1 with
  | forward => step.2 = next s
  | failed => (s = ACTIVATING \/ s = DEACTIVATING) /\ step.2 = DETACHED
  end.

Fixpoint lawful_from (s : ctx_state) (l : list (cause * ctx_state)) : Prop :=
  match l with
  | [] => True
  | step :: rest => lawful s step /\ lawful_from step.2 rest
  end.

(** The state after some steps: the last state entered, or the state
    before when none was. *)
Definition end_state (s : ctx_state) (l : list (cause * ctx_state))
  : ctx_state :=
  List.last (l.*2) s.

(** The states that lie behind a context in state [s], most recent
    first: what the order ATTACHING, STACK_NEGOTIATED, ACTIVATING, ACTIVE
    requires of them. *)
Definition preceded (past : list ctx_state) (s : ctx_state) : Prop :=
  match s with
  | STACK_NEGOTIATED => exists r, past = ATTACHING :: r
  | ACTIVATING => exists r, past = STACK_NEGOTIATED :: ATTACHING :: r
  | ACTIVE => exists r, past = ACTIVATING :: STACK_NEGOTIATED :: ATTACHING :: r
  | _ => True
  end.

(** A successful [negotiate_stack]. *)
Definition is_negotiation (ev : call * outcome) : Prop :=
  ev.1 = call_negotiate_stack /\ o_failure ev.2 = None.

(** A successful [negotiate_stack] in whose reply the modem acknowledged
    the stack type [t]. *)
Definition acknowledged (cs : command_set) (t : nsapi_ip_stack_t)
    (ev : call * outcome) : Prop :=
  is_negotiation ev /\
  exists lines, o_reply ev.2 = Some (OK_with_payload lines) /\
                acknowledged_stack_type cs lines = Some t.

(** [t] is what the modem acknowledged in the last successful
    negotiation of the execution [h]. *)
Definition last_acknowledged (cs : command_set) (t : nsapi_ip_stack_t)
    (h : list (call * outcome)) : Prop :=
  exists h1 ev h2,
    h = h1 ++ ev :: h2 /\ acknowledged cs t ev /\
    Forall (fun ev' => ~ is_negotiation ev') h2.

(** What holds of a context after the execution [h]: from
    STACK_NEGOTIATED to ACTIVE the granted type is the one last
    acknowledged, and a handle that exists is bound to the context and
    to the granted type. *)
Definition consistent (cs : command_set) (c : Context)
    (h : list (call * outcome)) : Prop :=
  (state c = STACK_NEGOTIATED \/ state c = ACTIVE ->
   exists t, stack_type_granted c = Some t /\ last_acknowledged cs t h) /\
  (forall hd, stack c = Some hd ->
     state c = ACTIVE /\ h_context hd = ctx_id c /\
     stack_type_granted c = Some (h_stack_type hd)).

(** A variant that narrows the stack types to IPv4, as the narrow-band
    BC95 does according to section 4.4. *)
Definition ipv4_only : Variant :=
  {| stack_type_supported :=
       fun t => match t with IPV4_STACK => true | _ => false end;
     get_stack := fun _ _ => "restricted"%string |}.

Definition generic_variant : Variant :=
  {| stack_type_supported := fun _ => true;
     get_stack := fun _ _ => "default"%string |}.

(** A command set with the attach command of the scenario of section 8
    and the 3GPP spelling of the others; the modem acknowledges the
    protocol type by a line that names it. *)
Definition example_commands : command_set :=
  {| attach_commands := [AT "AT+CGATT=1" (10 * 1000)];
     pdp_command := fun _ => AT "AT+CGDCONT?" 1000;
     activation_command := fun _ => AT "AT+CGACT=1" 1000;
     deactivation_command := fun _ => AT "AT+CGACT=0" 1000;
     acknowledged_stack_type := fun lines =>
       match lines with
       | [l] =>
           if String.eqb l "IP" then Some IPV4_STACK
           else if String.eqb l "IPV6" then Some IPV6_STACK
           else if String.eqb l "IPV4V6" then Some IPV4V6_STACK
           else None
       | _ => None
       end |}.

(** A context for which dual stack was requested, attached to the
    network. *)
Definition dual_stack_attached : Context :=
  enter ATTACHING (new_context 1 None IPV4V6_STACK).

(** A modem that grants IPv4 when dual stack is asked for. *)
Definition granting_ipv4 : Engine :=
  idle_engine [(1, "OK"); (1, "IP"); (1, "OK"); (1, "OK")]%string.

End CellularContext.

(** ** reset_reason_api.c, continued *)

Module ResetReasonClear.

Import ResetReason.

(** [hal_reset_reason_clear]: "Use current reason mask to reset
    reasons".  The call [nrf_power_resetreas_clear] belongs to the vendor
    header nrf_power.h, which is not part of the sources: it is a
    parameter. *)
Definition hal_reset_reason_clear
    (nrf_power_resetreas_clear : Z -> nrf_power -> nrf_power)
    (p : nrf_power) : nrf_power :=
  let reason := nrf_power_resetreas_get p in
  nrf_power_resetreas_clear reason p.

(** What the register does with a value written to it: a field is
    cleared by writing 1 to it, the other fields stay. *)
Definition write_one_to_clear
    (nrf_power_resetreas_clear : Z -> nrf_power -> nrf_power) : Prop :=
  forall mask p,
    RESETREAS (nrf_power_resetreas_clear mask p)
    = Z.land (RESETREAS p) (Z.lnot mask).

(** A register that behaves so. *)
Definition resetreas_w1c (mask : Z) (p : nrf_power) : nrf_power :=
  {| RESETREAS := Z.land (RESETREAS p) (Z.lnot mask) |}.

Definition defined (mask : option Z) : list Z :=
  match mask with
  | Some x => [x]
  | None => []
  end.

(** The masks that the function classifies as RESET_REASON_PLATFORM. *)
Definition platform_masks (m : resetreas_masks) : list Z :=
  [NRF_POWER_RESETREAS_OFF_MASK m; NRF_POWER_RESETREAS_DIF_MASK m]
  ++ defined (NRF_POWER_RESETREAS_LPCOMP_MASK m)
  ++ defined (NRF_POWER_RESETREAS_NFC_MASK m)
  ++ defined (NRF_POWER_RESETREAS_VBUS_MASK m).

(** Every mask is one bit of the register. *)
Definition single_bits (m : resetreas_masks) : Prop :=
  Forall (fun x => exists k, 0 <= k /\ x = Z.shiftl 1 k) (masks m).

End ResetReasonClear.

(** ** watchdog_api.c, sequences of calls *)

Module WatchdogRuns.

Import Watchdog.

Inductive call : Set :=
| call_init (config : watchdog_config_t)
| call_kick
| call_stop.

Definition perform (k : call) (s : state) : state :=
  match k with
  | call_init config => (hal_watchdog_init config s).2
  | call_kick => hal_watchdog_kick s
  | call_stop => (hal_watchdog_stop s).2
  end.

Definition run (ks : list call) (s : state) : state :=
  fold_left (fun s k => perform k s) ks s.

(** The timeout of the last [hal_watchdog_init] of a sequence of calls
    whose timeout is not a multiple of 131072 ms, or [d] when there is
    none. *)
Fixpoint last_timeout (ks : list call) (d : Z) : Z :=
  match ks with
  | [] => d
  | call_init config :: rest =>
      last_timeout rest
        (if timeout_ms config mod 131072 =? 0 then d else timeout_ms config)
  | _ :: rest => last_timeout rest d
  end.

(** The stored milliseconds and the peripheral agree: a watchdog that
    has been started runs while the CPU sleeps, with reload channel 0,
    on the tick count of the stored timeout. *)
Definition programmed (s : state) : Prop :=
  wdt_started (wdt s) = true ->
  wdt_reload_value (wdt s)
  = timeout_ticks {| timeout_ms := nordic_nrf5_watchdog_timeout_ms s |} /\
  0 < wdt_reload_value (wdt s) < UINT32_MAX /\
  wdt_behaviour (wdt s) = NRF_WDT_BEHAVIOUR_RUN_SLEEP /\
  wdt_rr0_enabled (wdt s) = true.

End WatchdogRuns.

(** ** tmpm46bf10fg.sct *)

Module ScatterTMPM46B.

(** The macros that the build may define before the file is
    preprocessed; [None] is a macro that is not defined.  A macro that is
    defined is taken to be defined as an integer constant, so that
    substituting its text is substituting its value; a macro defined as
    an expression is outside this model. *)
Record defines : Set := {
  def_MBED_APP_START : option Z;
  def_MBED_APP_SIZE : option Z;
  def_MBED_RAM_START : option Z;
  def_MBED_RAM_SIZE : option Z;
  def_MBED_CONF_TARGET_BOOT_STACK_SIZE : option Z;
  def_MBED_BOOT_STACK_SIZE : option Z
}.

Definition constant (o : option Z) : Prop :=
  match o with
  | Some x => 0 <= x
  | None => True
  end.

(** The constants are written without a sign. *)
Definition unsigned_constants (d : defines) : Prop :=
  constant (def_MBED_APP_START d) /\ constant (def_MBED_APP_SIZE d) /\
  constant (def_MBED_RAM_START d) /\ constant (def_MBED_RAM_SIZE d) /\
  constant (def_MBED_CONF_TARGET_BOOT_STACK_SIZE d) /\
  constant (def_MBED_BOOT_STACK_SIZE d).

Definition or_default (o : option Z) (d : Z) : Z :=
  match o with
  | Some x => x
  | None => d
  end.

Definition MBED_APP_START (d : defines) : Z :=
  or_default (def_MBED_APP_START d) 0x00000000.

Definition MBED_APP_SIZE (d : defines) : Z :=
  or_default (def_MBED_APP_SIZE d) 0x100000.

Definition MBED_RAM_START (d : defines) : Z :=
  or_default (def_MBED_RAM_START d) 0x20000000.

Definition MBED_RAM_SIZE (d : defines) : Z :=
  or_default (def_MBED_RAM_SIZE d) 0x80000.

Definition MBED_CONF_TARGET_BOOT_STACK_SIZE (d : defines) : Z :=
  match def_MBED_CONF_TARGET_BOOT_STACK_SIZE d with
  | Some x => x
  | None => or_default (def_MBED_BOOT_STACK_SIZE d) 0x400
  end.

Definition Stack_Size (d : defines) : Z := MBED_CONF_TARGET_BOOT_STACK_SIZE d.

Definition VECTOR_SIZE : Z := 0x1E0.

Definition RAM_FIXED_SIZE (d : defines) : Z :=
  MBED_CONF_TARGET_BOOT_STACK_SIZE d + VECTOR_SIZE.

Definition MBED_IRAM1_START (d : defines) : Z := MBED_RAM_START d + VECTOR_SIZE.

Definition MBED_IRAM1_SIZE (d : defines) : Z :=
  MBED_RAM_SIZE d - VECTOR_SIZE - Stack_Size d.

(** [AlignExpr(expr, align)]: [expr] rounded up to a multiple of
    [align]. *)
Definition AlignExpr (expr align : Z) : Z := (expr + align - 1) / align * align.

(** An execution region: the addresses from [r_base] up to, not
    including, [r_limit]. *)
Record region : Set := { r_base : Z; r_limit : Z }.

Definition r_size (r : region) : Z := r_limit r - r_base r.

(** [name address EMPTY length]: a region of [length] bytes that starts
    at [address], or, when the length is negative, a region of
    [-length] bytes that ends at [address]. *)
Definition EMPTY (address length : Z) : region :=
  if length <? 0
  then {| r_base := address + length; r_limit := address |}
  else {| r_base := address; r_limit := address + length |}.

(** [RW_IRAM1 MBED_IRAM1_START MBED_IRAM1_SIZE]: the extent the region
    may take. *)
Definition RW_IRAM1 (d : defines) : region :=
  {| r_base := MBED_IRAM1_START d;
     r_limit := MBED_IRAM1_START d + MBED_IRAM1_SIZE d |}.

(** [ARM_LIB_HEAP AlignExpr(+0, 16) EMPTY (...)]: [+0] is the address at
    which the contents of RW_IRAM1 end, [image_limit]
    ([ImageLimit(RW_IRAM1)]). *)
Definition ARM_LIB_HEAP (d : defines) (image_limit : Z) : region :=
  EMPTY (AlignExpr image_limit 16)
    (MBED_RAM_SIZE d - RAM_FIXED_SIZE d
     - (AlignExpr image_limit 16 - MBED_IRAM1_START d)).

(** [ARM_LIB_STACK (MBED_RAM_START+MBED_RAM_SIZE) EMPTY -Stack_Size]. *)
Definition ARM_LIB_STACK (d : defines) : region :=
  EMPTY (MBED_RAM_START d + MBED_RAM_SIZE d) (- Stack_Size d).

(** Nothing defined: the defaults of the file. *)
Definition no_defines : defines :=
  {| def_MBED_APP_START := None; def_MBED_APP_SIZE := None;
     def_MBED_RAM_START := None; def_MBED_RAM_SIZE := None;
     def_MBED_CONF_TARGET_BOOT_STACK_SIZE := None;
     def_MBED_BOOT_STACK_SIZE := None |}.

End ScatterTMPM46B.

(** * Properties *)

(** ** Reset reason *)

Section ResetReasonFacts.

Import ResetReason.

(** The chain of comparisons is a first-match search of the table of
    recognized masks. *)
Lemma hal_reset_reason_get_table (m : resetreas_masks) (p : nrf_power) :
  hal_reset_reason_get m p =
  match classification m (RESETREAS p) with
  | Some r => r
  | None =>
      if RESETREAS p =? 0 then RESET_REASON_UNKNOWN else RESET_REASON_MULTIPLE
  end.
Proof.
  destruct m as [m1 m2 m3 m4 m5 m6 [m7|] [m8|] [m9|]], p as [reason];
    unfold hal_reset_reason_get, classification, recognized; cbn;
    repeat (match goal with
            | |- context [reason =? ?x] =>
                destruct (reason =? x); cbn; try reflexivity
            end).
Qed.

Lemma find_nodup_key {V : Type} (l : list (Z * V)) (k : Z) (v : V) :
  NoDup (l.*1) -> (k, v) ∈ l ->
  List.find (fun e => k =? e.1) l = Some (k, v).
Proof.
  induction l as [|[k' v'] l IH]; intros Hnd Hin.
  - inversion Hin.
  - cbn in Hnd. apply NoDup_cons in Hnd as [Hk' Hnd].
    apply elem_of_cons in Hin as [Heq | Hin]; cbn.
    + inversion Heq; subst. now rewrite Z.eqb_refl.
    + destruct (Z.eqb_spec k k') as [->|_]; [|auto].
      exfalso. apply Hk'. apply list_elem_of_fmap. now exists (k', v).
Qed.

Lemma find_absent_key {V : Type} (l : list (Z * V)) (k : Z) :
  k ∉ l.*1 -> List.find (fun e => k =? e.1) l = None.
Proof.
  induction l as [|[k' v'] l IH]; intros Hk; [reflexivity|].
  cbn in *. apply not_elem_of_cons in Hk as [Hne Hk].
  destruct (Z.eqb_spec k k'); [contradiction | auto].
Qed.

Lemma classification_recognized (m : resetreas_masks) (mask : Z)
    (r : reset_reason_t) :
  masks_distinct m -> (mask, r) ∈ recognized m ->
  classification m mask = Some r.
Proof.
  intros [Hnd _] Hin. unfold classification.
  now rewrite (find_nodup_key _ _ _ Hnd Hin).
Qed.

Lemma classification_unrecognized (m : resetreas_masks) (v : Z) :
  v ∉ masks m -> classification m v = None.
Proof.
  intros Hv. unfold classification.
  now rewrite (find_absent_key _ _ Hv).
Qed.

Lemma nrf52840_masks_distinct : masks_distinct nrf52840_masks.
Proof.
  split.
  - apply (bool_decide_unpack _). vm_compute. exact I.
  - apply (bool_decide_unpack _). vm_compute. exact I.
Qed.

(** C1: a reset-reason register that reads exactly the OFF mask (signal
    from GPIO) or exactly the DIF mask (debug interface mode) is
    classified as RESET_REASON_PLATFORM, whatever the other masks are,
    as long as the reasons have masks of their own. *)
Theorem off_and_dif_are_platform (m : resetreas_masks) (p : nrf_power) :
  masks_distinct m ->
  RESETREAS p = NRF_POWER_RESETREAS_OFF_MASK m \/
  RESETREAS p = NRF_POWER_RESETREAS_DIF_MASK m ->
  hal_reset_reason_get m p = RESET_REASON_PLATFORM.
Proof.
  intros Hm Hp. rewrite hal_reset_reason_get_table.
  rewrite (classification_recognized m (RESETREAS p) RESET_REASON_PLATFORM Hm);
    [reflexivity|].
  unfold recognized. destruct Hp as [-> | ->]; set_solver.
Qed.

(** C3: the function is defined for every register value; a value
    equal to a recognized mask gets the classification of that mask, 0
    gets RESET_REASON_UNKNOWN, and every other value, a single bit
    that is no recognized mask included, gets RESET_REASON_MULTIPLE. *)
Theorem hal_reset_reason_get_total (m : resetreas_masks) :
  masks_distinct m ->
  (forall mask r, (mask, r) ∈ recognized m ->
     hal_reset_reason_get m {| RESETREAS := mask |} = r) /\
  hal_reset_reason_get m {| RESETREAS := 0 |} = RESET_REASON_UNKNOWN /\
  (forall v, v <> 0 -> v ∉ masks m ->
     hal_reset_reason_get m {| RESETREAS := v |} = RESET_REASON_MULTIPLE) /\
  (forall k, 0 <= k < 32 -> Z.shiftl 1 k ∉ masks m ->
     hal_reset_reason_get m {| RESETREAS := Z.shiftl 1 k |}
     = RESET_REASON_MULTIPLE).
Proof.
  intros Hm.
  assert (Hother : forall v, v <> 0 -> v ∉ masks m ->
    hal_reset_reason_get m {| RESETREAS := v |} = RESET_REASON_MULTIPLE).
  { intros v Hv Hnot. rewrite hal_reset_reason_get_table; cbn [RESETREAS].
    rewrite (classification_unrecognized m v Hnot). cbn.
    destruct (Z.eqb_spec v 0); [contradiction | reflexivity]. }
  repeat split.
  - intros mask r Hin. rewrite hal_reset_reason_get_table; cbn [RESETREAS].
    now rewrite (classification_recognized m mask r Hm Hin).
  - rewrite hal_reset_reason_get_table; cbn [RESETREAS].
    rewrite (classification_unrecognized m 0) by apply Hm. reflexivity.
  - exact Hother.
  - intros k Hk. apply Hother. rewrite Z.shiftl_1_l.
    apply Z.pow_nonzero; lia.
Qed.

End ResetReasonFacts.

Lemma off_and_dif_are_platform_witness :
  ResetReason.hal_reset_reason_get ResetReason.nrf52840_masks
    {| ResetReason.RESETREAS := 65536 |} = ResetReason.RESET_REASON_PLATFORM
  /\ ResetReason.hal_reset_reason_get ResetReason.nrf52840_masks
    {| ResetReason.RESETREAS := 262144 |} = ResetReason.RESET_REASON_PLATFORM.
Proof.
  split.
  - apply (off_and_dif_are_platform ResetReason.nrf52840_masks
             {| ResetReason.RESETREAS := 65536 |} nrf52840_masks_distinct).
    left. reflexivity.
  - apply (off_and_dif_are_platform ResetReason.nrf52840_masks
             {| ResetReason.RESETREAS := 262144 |} nrf52840_masks_distinct).
    right. reflexivity.
Defined.

Lemma hal_reset_reason_get_total_witness :
  ResetReason.hal_reset_reason_get ResetReason.nrf52840_masks
    {| ResetReason.RESETREAS := 2 |} = ResetReason.RESET_REASON_WATCHDOG
  /\ ResetReason.hal_reset_reason_get ResetReason.nrf52840_masks
    {| ResetReason.RESETREAS := 0 |} = ResetReason.RESET_REASON_UNKNOWN
  /\ ResetReason.hal_reset_reason_get ResetReason.nrf52840_masks
    {| ResetReason.RESETREAS := 3 |} = ResetReason.RESET_REASON_MULTIPLE
  /\ ResetReason.hal_reset_reason_get ResetReason.nrf52840_masks
    {| ResetReason.RESETREAS := Z.shiftl 1 4 |} = ResetReason.RESET_REASON_MULTIPLE.
Proof.
  destruct (hal_reset_reason_get_total ResetReason.nrf52840_masks
              nrf52840_masks_distinct) as (Hmask & Hzero & Hother & Hbit).
  split; [|split; [|split]].
  - apply Hmask. unfold ResetReason.recognized. cbn. set_solver.
  - exact Hzero.
  - apply Hother; [lia|]. apply (bool_decide_unpack _). vm_compute. exact I.
  - apply Hbit; [lia|]. apply (bool_decide_unpack _). vm_compute. exact I.
Defined.

(** ** Watchdog *)

Section WatchdogFacts.

Import Watchdog.

Lemma max_timeout_value : max_timeout nordic_nrf5_features = 131071000.
Proof. reflexivity. Qed.

Lemma timeout_ticks_bounds (config : watchdog_config_t) :
  0 <= timeout_ticks config < UINT32_MAX.
Proof.
  unfold timeout_ticks, u32, UINT32_MAX.
  pose proof (Z.mod_pos_bound (timeout_ms config * 32768) (2 ^ 32) eq_refl)
    as [Hlo Hhi].
  split.
  - apply Z.div_pos; lia.
  - apply Z.div_lt_upper_bound; lia.
Qed.

(** The range check accepts a configuration exactly when the wrapped
    product reaches one tick. *)
Lemma hal_watchdog_init_ok_iff (config : watchdog_config_t) (s : state) :
  (hal_watchdog_init config s).1 = WATCHDOG_STATUS_OK <->
  1000 <= u32 (timeout_ms config * 32768).
Proof.
  unfold hal_watchdog_init.
  pose proof (timeout_ticks_bounds config) as [Hlo Hhi].
  assert (Hpos : 0 < timeout_ticks config <->
                 1000 <= u32 (timeout_ms config * 32768)).
  { unfold timeout_ticks. split; intros H.
    - destruct (Z_lt_le_dec (u32 (timeout_ms config * 32768)) 1000) as [Hlt|]; [|lia].
      rewrite Z.div_small in H; [lia|]. split; [|exact Hlt].
      unfold u32. apply Z.mod_pos_bound. reflexivity.
    - apply Z.div_str_pos. lia. }
  destruct (Z.ltb_spec 0 (timeout_ticks config));
    destruct (Z.ltb_spec (timeout_ticks config) UINT32_MAX); cbn;
    split; intros H'; try discriminate; try reflexivity; lia.
Qed.

(** As long as the product fits 32 bits the conversion is the intended
    one and the configuration is accepted. *)
Lemma hal_watchdog_init_small (config : watchdog_config_t) (s : state) :
  1 <= timeout_ms config <= 131071 ->
  timeout_ticks config = timeout_ms config * 32768 / 1000 /\
  (hal_watchdog_init config s).1 = WATCHDOG_STATUS_OK.
Proof.
  intros Ht.
  assert (Hfit : u32 (timeout_ms config * 32768) = timeout_ms config * 32768).
  { unfold u32. apply Z.mod_small. lia. }
  split.
  - unfold timeout_ticks. now rewrite Hfit.
  - apply hal_watchdog_init_ok_iff. rewrite Hfit. lia.
Qed.

(** Computed without wrap-around, every timeout up to the advertised
    maximum gives a tick count that passes the range check. *)
Lemma unwrapped_ticks_in_range (t : Z) :
  1 <= t <= max_timeout nordic_nrf5_features ->
  0 < t * 32768 / 1000 < UINT32_MAX.
Proof.
  rewrite max_timeout_value. unfold UINT32_MAX. intros Ht. split.
  - apply Z.div_str_pos. lia.
  - apply Z.div_lt_upper_bound; lia.
Qed.

(** C2: the timeout of 131072 ms lies between 1 ms and the advertised
    maximum, yet its product with 32768 is 2^32, which wraps to 0: the
    tick count is 0 and the configuration is refused, leaving the
    state as it was. *)
Theorem hal_watchdog_init_refuses_131072 :
  1 <= 131072 <= max_timeout hal_watchdog_get_platform_features /\
  timeout_ticks {| timeout_ms := 131072 |} = 0 /\
  forall s : state,
    hal_watchdog_init {| timeout_ms := 131072 |} s
    = (WATCHDOG_STATUS_INVALID_ARGUMENT, s).
Proof.
  split; [|split].
  - unfold hal_watchdog_get_platform_features. rewrite max_timeout_value. lia.
  - reflexivity.
  - intros s. reflexivity.
Qed.

(** One millisecond more and the wrapped product gives 32 ticks: the
    configuration is accepted with a period of about one millisecond
    instead of 131 seconds. *)
Lemma hal_watchdog_init_wraps_131073 (s : state) :
  (hal_watchdog_init {| timeout_ms := 131073 |} s).1 = WATCHDOG_STATUS_OK /\
  wdt_reload_value (wdt (hal_watchdog_init {| timeout_ms := 131073 |} s).2) = 32.
Proof. split; reflexivity. Qed.

(** C4: a refused configuration leaves the stored reload value as it
    was, and an accepted one stores the timeout of the configuration,
    which is what [hal_watchdog_get_reload_value] then returns. *)
Theorem hal_watchdog_init_reload_value (config : watchdog_config_t)
    (s : state) :
  ((hal_watchdog_init config s).1 = WATCHDOG_STATUS_INVALID_ARGUMENT ->
   hal_watchdog_get_reload_value (hal_watchdog_init config s).2
   = hal_watchdog_get_reload_value s)
  /\
  ((hal_watchdog_init config s).1 = WATCHDOG_STATUS_OK ->
   hal_watchdog_get_reload_value (hal_watchdog_init config s).2
   = timeout_ms config).
Proof.
  unfold hal_watchdog_init.
  destruct ((0 <? timeout_ticks config) && (timeout_ticks config <? UINT32_MAX));
    cbn; split; intros H; try discriminate H; reflexivity.
Qed.

(** The call returns one of the two statuses. *)
Lemma hal_watchdog_init_status (config : watchdog_config_t) (s : state) :
  (hal_watchdog_init config s).1 = WATCHDOG_STATUS_INVALID_ARGUMENT \/
  (hal_watchdog_init config s).1 = WATCHDOG_STATUS_OK.
Proof.
  unfold hal_watchdog_init.
  destruct ((0 <? timeout_ticks config) && (timeout_ticks config <? UINT32_MAX));
    cbn; auto.
Qed.

End WatchdogFacts.

Lemma hal_watchdog_init_reload_value_witness :
  Watchdog.hal_watchdog_get_reload_value
    (Watchdog.hal_watchdog_init {| Watchdog.timeout_ms := 0 |}
       Watchdog.initial_state).2 = 0
  /\ Watchdog.hal_watchdog_get_reload_value
    (Watchdog.hal_watchdog_init {| Watchdog.timeout_ms := 5000 |}
       Watchdog.initial_state).2 = 5000.
Proof.
  split.
  - apply (proj1 (hal_watchdog_init_reload_value
                    {| Watchdog.timeout_ms := 0 |} Watchdog.initial_state)).
    reflexivity.
  - apply (proj2 (hal_watchdog_init_reload_value
                    {| Watchdog.timeout_ms := 5000 |} Watchdog.initial_state)).
    reflexivity.
Defined.

(** ** The BC95 class declaration *)

Section ClassDeclFacts.

Import ClassDecl.

Lemma derive_lookup {Impl : Type} (own : string -> Impl) (c : class_decl)
    (base : gmap string Impl) (op : string) :
  derive Impl own c base !! op =
  if bool_decide (op ∈ overridden c) then Some (own op) else base !! op.
Proof.
  unfold derive. induction (overridden c) as [|o l IH]; cbn.
  - reflexivity.
  - destruct (decide (o = op)) as [->|Hne].
    + rewrite lookup_insert_eq. rewrite bool_decide_eq_true_2; [reflexivity|].
      apply elem_of_cons. now left.
    + rewrite lookup_insert_ne by exact Hne. rewrite IH.
      destruct (decide (op ∈ l)) as [Hin|Hnot].
      * rewrite !bool_decide_eq_true_2; [reflexivity | | assumption].
        apply elem_of_cons. now right.
      * rewrite !bool_decide_eq_false_2; [reflexivity | | assumption].
        intros [?|?]%elem_of_cons; [congruence | contradiction].
Qed.

(** C5: the BC95 context redeclares exactly the two operations
    [get_stack] and [stack_type_supported] of the generic context: in
    its dispatch table these two are bound to its own definitions and
    every other operation is the one of the base class. *)
Theorem bc95_overrides_exactly_two :
  overridden QUECTEL_BC95_CellularContext
  = ["get_stack"; "stack_type_supported"]%string /\
  forall (Impl : Type) (own : string -> Impl) (base : gmap string Impl)
         (op : string),
    derive Impl own QUECTEL_BC95_CellularContext base !! op =
    if bool_decide (op = "get_stack" \/ op = "stack_type_supported")%string
    then Some (own op) else base !! op.
Proof.
  split; [reflexivity|].
  intros Impl own base op. rewrite derive_lookup.
  change (overridden QUECTEL_BC95_CellularContext)
    with ["get_stack"; "stack_type_supported"]%string.
  apply (f_equal (fun b : bool => if b then Some (own op) else base !! op)).
  apply bool_decide_ext. rewrite !elem_of_cons, elem_of_nil. tauto.
Qed.

End ClassDeclFacts.

(** ** The AT command engine *)

Section ATEngineFacts.

Import ATEngine.
Local Close Scope Z_scope.
Local Open Scope nat_scope.

Lemma is_final_false (c : Command) (l : string) :
  is_final c l = false <-> classify c l = non_final.
Proof.
  unfold is_final. destruct (classify c l); split; congruence.
Qed.

(** *** Dispatch *)

Lemma dispatch_line_no (u : gmap string handler) (n : nat) (l : string)
    (k : urc_call) :
  k ∈ dispatch u n l -> call_line_no k = n.
Proof.
  unfold dispatch. intros Hk. apply list_elem_of_fmap in Hk as (ph & -> & _).
  reflexivity.
Qed.

Lemma filter_all {A : Type} (f : A -> bool) (l : list A) :
  (forall x, x ∈ l -> f x = true) -> List.filter f l = l.
Proof.
  induction l as [|a l IH]; intros H; cbn; [reflexivity|].
  rewrite (H a) by (apply elem_of_cons; now left).
  f_equal. apply IH. intros x Hx. apply H. apply elem_of_cons. now right.
Qed.

Lemma filter_none {A : Type} (f : A -> bool) (l : list A) :
  (forall x, x ∈ l -> f x = false) -> List.filter f l = [].
Proof.
  induction l as [|a l IH]; intros H; cbn; [reflexivity|].
  rewrite (H a) by (apply elem_of_cons; now left).
  apply IH. intros x Hx. apply H. apply elem_of_cons. now right.
Qed.

Lemma filter_fmap {A B : Type} (g : B -> bool) (f : A -> B) (l : list A) :
  List.filter g (f <$> l) = f <$> List.filter (fun a => g (f a)) l.
Proof.
  induction l as [|a l IH]; cbn; [reflexivity|].
  destruct (g (f a)); cbn; now rewrite IH.
Qed.

(** In a list without repetition an element occurs once. *)
Lemma filter_eq_nodup (l : list handler) (h : handler) :
  NoDup l -> h ∈ l -> List.filter (fun x : handler => x =? h) l = [h].
Proof.
  induction l as [|x l IH]; intros Hnd Hin.
  - inversion Hin.
  - apply NoDup_cons in Hnd as [Hfresh Hnd].
    apply elem_of_cons in Hin as [<- | Hin]; cbn.
    + rewrite Nat.eqb_refl. f_equal. apply filter_none.
      intros y Hy. apply Nat.eqb_neq. intros ->. contradiction.
    + destruct (Nat.eqb_spec x h) as [->|_]; [contradiction|]. now apply IH.
Qed.

Lemma handlers_for_registered (u : gmap string handler) (l p : string)
    (h : handler) :
  u !! p = Some h -> String.prefix p l = true -> h ∈ handlers_for u l.
Proof.
  intros Hreg Hpre. unfold handlers_for. apply elem_of_remove_dups.
  apply list_elem_of_fmap. exists (p, h). split; [reflexivity|].
  unfold matching. apply list_elem_of_In, filter_In. split.
  - apply list_elem_of_In. now apply elem_of_map_to_list.
  - exact Hpre.
Qed.

(** A handler registered for a prefix of the line is called once for
    the line, under however many prefixes of the line it is
    registered. *)
Lemma dispatch_registered_once (u : gmap string handler) (n : nat)
    (l p : string) (h : handler) :
  u !! p = Some h -> String.prefix p l = true ->
  List.filter (fun k => call_handler k =? h) (dispatch u n l)
  = [ {| call_line_no := n; call_handler := h; call_line := l |} ].
Proof.
  intros Hreg Hpre. unfold dispatch. rewrite filter_fmap. cbn [call_handler].
  rewrite (filter_eq_nodup (handlers_for u l) h); [reflexivity | |].
  - apply NoDup_remove_dups.
  - now apply (handlers_for_registered u l p h).
Qed.

Lemma is_urc_registered (u : gmap string handler) (l p : string) (h : handler) :
  u !! p = Some h -> String.prefix p l = true -> is_urc u l = true.
Proof.
  intros Hreg Hpre. unfold is_urc.
  destruct (matching u l) as [|x m] eqn:Hm; [|reflexivity].
  exfalso. assert (Hin : (p, h) ∈ matching u l).
  { unfold matching. apply list_elem_of_In, filter_In. split.
    - apply list_elem_of_In. now apply elem_of_map_to_list.
    - exact Hpre. }
  rewrite Hm in Hin. inversion Hin.
Qed.

(** *** The reading loop *)

Lemma total_delay_cons (d : nat) (l : string) (s : Stream) :
  total_delay ((d, l) :: s) = d + total_delay s.
Proof. reflexivity. Qed.

Section Reading.

Variable u : gmap string handler.
Variable check : string -> list string -> string -> bool.
Variable c : Command.

(** The calls made while reading carry the numbers of the lines read. *)
Lemma read_response_calls_from (s : Stream) :
  forall budget n seen payload k,
    k ∈ x_calls (read_response u check c budget n seen payload s) ->
    n <= call_line_no k.
Proof.
  induction s as [|[d l] rest IH]; intros budget n seen payload k; cbn.
  - intros Hk. inversion Hk.
  - destruct (d <=? budget); [|cbn; intros Hk; inversion Hk].
    destruct (classify c l) as [|code|].
    + destruct (check (cmd_text c) seen l); cbn; intros Hk; inversion Hk.
    + destruct (check (cmd_text c) seen l); cbn; intros Hk; inversion Hk.
    + cbn. intros Hk. apply elem_of_app in Hk as [Hk | Hk].
      * apply dispatch_line_no in Hk. lia.
      * apply IH in Hk. lia.
Qed.

(** The calls made for the line that follows the non-final lines [pre]
    are those of its dispatch. *)
Lemma read_response_calls_at (pre : Stream) :
  forall budget n seen payload d l post,
    Forall (fun dl => is_final c dl.2 = false) pre ->
    is_final c l = false ->
    total_delay pre + d <= budget ->
    List.filter (fun k => call_line_no k =? n + length pre)
      (x_calls (read_response u check c budget n seen payload
                  (pre ++ (d, l) :: post)))
    = dispatch u (n + length pre) l.
Proof.
  induction pre as [|[d0 l0] pre IH];
    intros budget n seen payload d l post Hpre Hl Hbudget.
  - cbn in *. rewrite Nat.add_0_r.
    destruct (Nat.leb_spec d budget); [|lia].
    apply is_final_false in Hl. rewrite Hl. cbn.
    rewrite List.filter_app. rewrite filter_all, filter_none.
    + apply app_nil_r.
    + intros k Hk. apply read_response_calls_from in Hk.
      apply Nat.eqb_neq. lia.
    + intros k Hk. apply dispatch_line_no in Hk. now apply Nat.eqb_eq.
  - apply Forall_cons in Hpre as [Hl0 Hpre]. cbn in Hl0.
    rewrite total_delay_cons in Hbudget.
    cbn [app read_response].
    destruct (Nat.leb_spec d0 budget); [|lia].
    apply is_final_false in Hl0. rewrite Hl0. cbn [x_calls].
    rewrite List.filter_app, filter_none.
    + cbn [app length]. replace (n + S (length pre)) with (S n + length pre) by lia.
      apply IH; [assumption | assumption | lia].
    + intros k Hk. apply dispatch_line_no in Hk. apply Nat.eqb_neq.
      cbn [length]. lia.
Qed.

(** A line of the payload was either in it before the reading went on,
    or read as a line that no registration matches. *)
Lemma read_response_payload (s : Stream) :
  forall budget n seen payload lines l,
    x_result (read_response u check c budget n seen payload s)
    = OK_with_payload lines ->
    l ∈ lines -> l ∈ payload \/ is_urc u l = false.
Proof.
  induction s as [|[d l0] rest IH];
    intros budget n seen payload lines l; cbn.
  - discriminate.
  - destruct (d <=? budget); [|cbn; discriminate].
    destruct (classify c l0).
    + destruct (check (cmd_text c) seen l0); cbn; [|discriminate].
      intros [= <-]. now left.
    + destruct (check (cmd_text c) seen l0); cbn; discriminate.
    + cbn. intros Hres Hl. destruct (IH _ _ _ _ _ _ Hres Hl) as [Hin | Hno].
      * destruct (is_urc u l0) eqn:Hu; [now left|].
        apply elem_of_app in Hin as [Hin | Hin]; [now left|].
        apply list_elem_of_singleton in Hin. subst. now right.
      * now right.
Qed.


End Reading.

(** *** send *)

Lemma send_result (e : Engine) (c : Command) :
  (send e c).1 =
  x_result (read_response (urcs e) (sync_check e) c (effective_timeout e c)
              0 [] [] (stream e)).
Proof. reflexivity. Qed.

Lemma send_invoked (e : Engine) (c : Command) :
  invoked (send e c).2 =
  invoked e ++
  x_calls (read_response (urcs e) (sync_check e) c (effective_timeout e c)
             0 [] [] (stream e)).
Proof. reflexivity. Qed.


(** C6: a handler [h] is registered for the prefix [p]; while the
    command [c] is in flight (after the non-final lines [pre], within the
    timeout) the unsolicited line [l], which begins with [p], arrives.
    Then among the handler invocations of this [send], those of [h] for
    that line are exactly one, and [l] is not in the payload that [send]
    returns. *)
Theorem urc_dispatched_once_and_excluded (e : Engine) (c : Command)
    (p : string) (h : handler) (pre post : Stream) (d : nat) (l : string) :
  urcs e !! p = Some h ->
  stream e = pre ++ (d, l) :: post ->
  total_delay pre + d <= effective_timeout e c ->
  Forall (fun dl => is_final c dl.2 = false) pre ->
  is_final c l = false ->
  String.prefix p l = true ->
  exists calls,
    invoked (send e c).2 = invoked e ++ calls /\
    List.filter
      (fun k => (call_line_no k =? length pre) && (call_handler k =? h))
      calls
    = [ {| call_line_no := length pre; call_handler := h; call_line := l |} ] /\
    forall lines, (send e c).1 = OK_with_payload lines -> l ∉ lines.
Proof.
  intros Hreg Hstream Hbudget Hpre Hl Hp.
  eexists. split; [apply send_invoked|]. split.
  - rewrite Hstream.
    rewrite <- (dispatch_registered_once (urcs e) (length pre) l p h Hreg Hp).
    pose proof (read_response_calls_at (urcs e) (sync_check e) c pre
                  (effective_timeout e c) 0 [] [] d l post Hpre Hl Hbudget)
      as Hat.
    cbn [Nat.add] in Hat. rewrite <- Hat. clear Hat. generalize (x_calls
      (read_response (urcs e) (sync_check e) c (effective_timeout e c) 0 [] []
         (pre ++ (d, l) :: post))).
    intros ks. induction ks as [|k ks IH]; cbn; [reflexivity|].
    destruct (call_line_no k =? length pre); cbn;
      [destruct (call_handler k =? h); cbn|]; now rewrite IH.
  - intros lines Hres Hin. rewrite send_result in Hres.
    destruct (read_response_payload _ _ _ _ _ _ _ _ _ _ Hres Hin) as [Hin' | Hno].
    + inversion Hin'.
    + rewrite (is_urc_registered (urcs e) l p h Hreg Hp) in Hno. discriminate.
Qed.

(** *** The error state *)








End ATEngineFacts.

(** ** The cellular context *)

Section CellularContextFacts.

Import ATEngine CellularContext.
Local Close Scope Z_scope.
Local Open Scope nat_scope.

Variable vendor : Variant.
Variable cs : command_set.

(** *** One call *)

(** [acquire_stack] causes no transition. *)
Lemma acquire_stack_state (c : Context) :
  state (acquire_stack vendor c).2 = state c.
Proof.
  unfold acquire_stack. destruct (state c) eqn:Hs; cbn; try exact Hs.
  destruct (stack c); cbn; [reflexivity|].
  destruct (stack_type_granted c); cbn; [reflexivity | exact Hs].
Qed.

(** A call that enters no state. *)
Local Ltac stays Hs :=
  cbn -[send send_all];
  split; [exact I | split; [now rewrite ?Hs | intros ? Hin; inversion Hin]].

Local Ltac no_failed_step :=
  let Hin := fresh "Hin" in
  intros ? Hin;
  repeat (apply elem_of_cons in Hin as [Hin|Hin]; [discriminate Hin|]);
  inversion Hin.

(** The states a call enters are lawful steps from the state before, the
    last of them is the state after, and a step taken on failure belongs
    to a call that fails. *)
Lemma perform_trail (k : call) (c : Context) (e : Engine) :
  lawful_from (state c) (o_trail (perform vendor cs k c e)) /\
  state (o_context (perform vendor cs k c e))
  = end_state (state c) (o_trail (perform vendor cs k c e)) /\
  (forall s, (failed, s) ∈ o_trail (perform vendor cs k c e) ->
     o_failure (perform vendor cs k c e) <> None).
Proof.
  destruct k; cbn [perform].
  - unfold attach. destruct (state c) eqn:Hs; try (stays Hs).
    destruct (send_all e (attach_commands cs)) as [r e'].
    destruct (failure_of r); [stays Hs|].
    cbn. split; [now (split; [|exact I])|]. split; [reflexivity|].
    no_failed_step.
  - unfold negotiate_stack. destruct (state c) eqn:Hs; try (stays Hs).
    destruct (stack_type_supported vendor (stack_type_requested c));
      [|stays Hs].
    destruct (send e (pdp_command cs c)) as [r e'].
    destruct r as [lines|code| |]; try (stays Hs).
    destruct (acknowledged_stack_type cs lines); [|stays Hs].
    cbn. split; [now (split; [|exact I])|]. split; [reflexivity|].
    no_failed_step.
  - unfold activate. destruct (state c) eqn:Hs; try (stays Hs).
    destruct (send e (activation_command cs c)) as [r e'].
    destruct (failure_of r); cbn.
    + split; [repeat split; auto|]. split; [reflexivity|]. discriminate.
    + split; [repeat split; auto|]. split; [reflexivity|]. no_failed_step.
  - pose proof (acquire_stack_state c) as Hst.
    destruct (acquire_stack vendor c) as [r c']. stays Hst.
  - stays (eq_refl (state c)).
  - unfold deactivate. destruct (state c) eqn:Hs; try (stays Hs).
    destruct (stack_references c); [|stays Hs].
    destruct (send e (deactivation_command cs c)) as [r e'].
    destruct (failure_of r); cbn.
    + split; [repeat split; auto|]. split; [reflexivity|]. discriminate.
    + split; [repeat split; auto|]. split; [reflexivity|]. no_failed_step.
  - stays (eq_refl (state c)).
Qed.

(** *** Executions *)

Lemma last_cons_default {A : Type} (l : list A) :
  forall x d, List.last (x :: l) d = List.last l x.
Proof.
  induction l as [|y l IH]; intros x d; [reflexivity|].
  change (List.last (x :: y :: l) d) with (List.last (y :: l) d).
  now rewrite !IH.
Qed.

Lemma end_state_cons (step : cause * ctx_state)
    (l : list (cause * ctx_state)) (s : ctx_state) :
  end_state s (step :: l) = end_state step.2 l.
Proof. unfold end_state. cbn [fmap list_fmap]. apply last_cons_default. Qed.

Lemma lawful_from_app (l1 l2 : list (cause * ctx_state)) :
  forall s,
    lawful_from s l1 -> lawful_from (end_state s l1) l2 ->
    lawful_from s (l1 ++ l2).
Proof.
  induction l1 as [|step l1 IH]; intros s H1 H2; [exact H2|].
  destruct H1 as [Hstep H1]. split; [exact Hstep|].
  apply IH; [exact H1|]. now rewrite end_state_cons in H2.
Qed.

Lemma end_state_app (l1 l2 : list (cause * ctx_state)) :
  forall s, end_state s (l1 ++ l2) = end_state (end_state s l1) l2.
Proof.
  induction l1 as [|step l1 IH]; intros s; [reflexivity|].
  cbn [app]. now rewrite !end_state_cons.
Qed.

Lemma steps_cons (k : call) (o : outcome) (h : list (call * outcome)) :
  steps ((k, o) :: h) = o_trail o ++ steps h.
Proof. reflexivity. Qed.

Lemma run_steps (ks : list call) :
  forall c e,
    lawful_from (state c) (steps (run vendor cs ks c e)) /\
    state (final vendor cs ks c e).1
    = end_state (state c) (steps (run vendor cs ks c e)).
Proof.
  induction ks as [|k ks IH]; intros c e; [now split|].
  cbn [run final]. rewrite steps_cons.
  destruct (perform_trail k c e) as (Hlaw & Hend & _).
  destruct (IH (o_context (perform vendor cs k c e))
               (o_engine (perform vendor cs k c e))) as [IHlaw IHend].
  rewrite Hend in IHlaw, IHend. split.
  - now apply lawful_from_app.
  - now rewrite end_state_app.
Qed.

Lemma run_failed_steps (ks : list call) :
  forall c e k o s,
    (k, o) ∈ run vendor cs ks c e -> (failed, s) ∈ o_trail o ->
    o_failure o <> None.
Proof.
  induction ks as [|k0 ks IH]; intros c e k o s Hin Hs.
  - inversion Hin.
  - cbn in Hin. apply elem_of_cons in Hin as [Heq | Hin].
    + inversion Heq; subst. now apply (perform_trail k0 c e) in Hs.
    + exact (IH _ _ _ _ _ Hin Hs).
Qed.

(** *** Negotiation and stack acquisition *)

(** C10: when the variant does not support the stack type requested for a
    context in ATTACHING (as with IPv4v6 requested from a variant that
    accepts IPv4 only), [negotiate_stack] fails with
    UNSUPPORTED_STACK_TYPE, no command is issued, and the context is left
    as it was, in ATTACHING. *)
Theorem negotiate_stack_unsupported (c : Context) (e : Engine) :
  state c = ATTACHING ->
  stack_type_supported vendor (stack_type_requested c) = false ->
  o_failure (negotiate_stack vendor cs c e) = Some UNSUPPORTED_STACK_TYPE /\
  state (o_context (negotiate_stack vendor cs c e)) = ATTACHING /\
  o_context (negotiate_stack vendor cs c e) = c /\
  o_engine (negotiate_stack vendor cs c e) = e /\
  o_trail (negotiate_stack vendor cs c e) = [].
Proof.
  intros Hs Hno. unfold negotiate_stack. rewrite Hs, Hno. cbn.
  repeat split. exact Hs.
Qed.

Lemma acquire_stack_not_active (c : Context) :
  state c <> ACTIVE -> acquire_stack vendor c = (inl NOT_ACTIVE, c).
Proof.
  intros Hs. unfold acquire_stack. destruct (state c); congruence.
Qed.

Lemma last_acknowledged_later (t : nsapi_ip_stack_t)
    (h : list (call * outcome)) (ev : call * outcome) :
  last_acknowledged cs t h -> ~ is_negotiation ev ->
  last_acknowledged cs t (h ++ [ev]).
Proof.
  intros (h1 & ev0 & h2 & -> & Hack & Hrest) Hev.
  exists h1, ev0, (h2 ++ [ev]). split; [now rewrite <- app_assoc|].
  split; [exact Hack|]. apply Forall_app. split; [exact Hrest|].
  now apply Forall_singleton.
Qed.

Lemma last_acknowledged_now (t : nsapi_ip_stack_t)
    (h : list (call * outcome)) (ev : call * outcome) :
  acknowledged cs t ev -> last_acknowledged cs t (h ++ [ev]).
Proof.
  intros Hack. exists h, ev, []. split; [reflexivity|].
  split; [exact Hack | constructor].
Qed.

(** A context that a call leaves as it was stays consistent, provided
    the call is not a successful negotiation. *)
Lemma consistent_later (c : Context) (h : list (call * outcome))
    (ev : call * outcome) :
  consistent cs c h -> ~ is_negotiation ev -> consistent cs c (h ++ [ev]).
Proof.
  intros [HA HB] Hev. split; [|exact HB].
  intros Hs. destruct (HA Hs) as (t & Ht & Hlast).
  exists t. split; [exact Ht|]. now apply last_acknowledged_later.
Qed.

Lemma consistent_detach (c : Context) (h : list (call * outcome)) :
  consistent cs (detach c) h.
Proof.
  split; cbn.
  - intros [|]; discriminate.
  - discriminate.
Qed.

Local Ltac not_negotiation :=
  unfold is_negotiation; cbn; intros [? ?]; discriminate.

Lemma perform_consistent (k : call) (c : Context) (e : Engine)
    (h : list (call * outcome)) :
  consistent cs c h ->
  consistent cs (o_context (perform vendor cs k c e))
    (h ++ [(k, perform vendor cs k c e)]).
Proof.
  intros Hc. pose proof Hc as [HA HB]. destruct k; cbn [perform].
  - unfold attach. destruct (state c) eqn:Hs;
      try (apply consistent_later; [exact Hc | not_negotiation]).
    destruct (send_all e (attach_commands cs)) as [r e'].
    destruct (failure_of r);
      [apply consistent_later; [exact Hc | not_negotiation]|].
    split; cbn.
    + intros [|]; discriminate.
    + intros hd Hhd. apply HB in Hhd as [Hact _]. congruence.
  - unfold negotiate_stack. destruct (state c) eqn:Hs;
      try (apply consistent_later; [exact Hc | not_negotiation]).
    destruct (stack_type_supported vendor (stack_type_requested c));
      [|apply consistent_later; [exact Hc | not_negotiation]].
    destruct (send e (pdp_command cs c)) as [r e'].
    destruct r as [lines|code| |];
      try (apply consistent_later; [exact Hc | not_negotiation]).
    destruct (acknowledged_stack_type cs lines) as [t|] eqn:Hack;
      [|apply consistent_later; [exact Hc | not_negotiation]].
    split; cbn.
    + intros _. exists t. split; [reflexivity|].
      apply last_acknowledged_now. split; [now split|].
      exists lines. now split.
    + intros hd Hhd. apply HB in Hhd as [Hact _]. congruence.
  - unfold activate. destruct (state c) eqn:Hs;
      try (apply consistent_later; [exact Hc | not_negotiation]).
    destruct (send e (activation_command cs c)) as [r e'].
    destruct (failure_of r); [apply consistent_detach|].
    split; cbn.
    + intros _. destruct HA as (t & Ht & Hlast); [now left|].
      exists t. split; [exact Ht|].
      apply last_acknowledged_later; [exact Hlast | not_negotiation].
    + intros hd Hhd. apply HB in Hhd as [Hact _]. congruence.
  - destruct (acquire_stack vendor c) as [r c'] eqn:Hacq.
    cbn [o_context]. unfold acquire_stack in Hacq.
    destruct (state c) eqn:Hs;
      try (inversion Hacq; subst;
           apply consistent_later; [exact Hc | not_negotiation]).
    destruct HA as (t & Ht & Hlast); [now right|].
    assert (Hlater : last_acknowledged cs t
              (h ++ [(call_acquire_stack,
                      {| o_failure := match r with
                                      | inl f => Some f
                                      | inr _ => None
                                      end;
                         o_context := c'; o_engine := e; o_trail := [];
                         o_reply := None |})])).
    { apply last_acknowledged_later; [exact Hlast | not_negotiation]. }
    destruct (stack c) as [hd|] eqn:Hstack.
    + inversion Hacq; subst. split; cbn.
      * intros _. exists t. now split.
      * intros hd' [= <-]. destruct (HB hd eq_refl) as (_ & Hid & Hty).
        now split.
    + rewrite Ht in Hacq. inversion Hacq; subst. split; cbn.
      * intros _. exists t. now split.
      * intros hd' [= <-]. cbn. now split.
  - destruct Hc as [HA' HB']. split; cbn.
    + intros Hs. destruct (HA' Hs) as (t & Ht & Hlast).
      exists t. split; [exact Ht|].
      apply last_acknowledged_later; [exact Hlast | not_negotiation].
    + exact HB'.
  - unfold deactivate. destruct (state c) eqn:Hs;
      try (apply consistent_later; [exact Hc | not_negotiation]).
    destruct (stack_references c);
      [|apply consistent_later; [exact Hc | not_negotiation]].
    destruct (send e (deactivation_command cs c)) as [r e'].
    apply consistent_detach.
  - apply consistent_later; [exact Hc | not_negotiation].
Qed.

Lemma run_consistent (ks : list call) :
  forall c e h,
    consistent cs c h ->
    consistent cs (final vendor cs ks c e).1 (h ++ run vendor cs ks c e).
Proof.
  induction ks as [|k ks IH]; intros c e h Hc; cbn [run final].
  - now rewrite app_nil_r.
  - rewrite (cons_middle _ h), app_assoc. apply IH.
    now apply perform_consistent.
Qed.

Lemma perform_ctx_id (k : call) (c : Context) (e : Engine) :
  ctx_id (o_context (perform vendor cs k c e)) = ctx_id c.
Proof.
  destruct k; cbn [perform]; try reflexivity.
  - unfold attach. destruct (state c); try reflexivity.
    destruct (send_all e (attach_commands cs)) as [r e'].
    destruct (failure_of r); reflexivity.
  - unfold negotiate_stack. destruct (state c); try reflexivity.
    destruct (stack_type_supported vendor (stack_type_requested c));
      [|reflexivity].
    destruct (send e (pdp_command cs c)) as [r e'].
    destruct r as [lines|code| |]; try reflexivity.
    destruct (acknowledged_stack_type cs lines); reflexivity.
  - unfold activate. destruct (state c); try reflexivity.
    destruct (send e (activation_command cs c)) as [r e'].
    destruct (failure_of r); reflexivity.
  - unfold acquire_stack. destruct (state c); try reflexivity.
    destruct (stack c); [reflexivity|].
    destruct (stack_type_granted c); reflexivity.
  - unfold deactivate. destruct (state c); try reflexivity.
    destruct (stack_references c); [|reflexivity].
    destruct (send e (deactivation_command cs c)) as [r e']. reflexivity.
Qed.

Lemma final_ctx_id (ks : list call) :
  forall c e, ctx_id (final vendor cs ks c e).1 = ctx_id c.
Proof.
  induction ks as [|k ks IH]; intros c e; [reflexivity|].
  cbn [final]. rewrite IH. apply perform_ctx_id.
Qed.

(** C9: [acquire_stack] on a context in any state but ACTIVE fails
    with NOT_ACTIVE and leaves the context as it is; at the end of any
    execution that leaves the context ACTIVE it returns a handle and the
    state stays ACTIVE; the handle is bound to the context and to the
    stack type that the modem acknowledged in the last successful
    negotiation, whatever type was requested. *)
Theorem acquire_stack_only_when_active :
  (forall c : Context,
     state c <> ACTIVE -> acquire_stack vendor c = (inl NOT_ACTIVE, c)) /\
  (forall (id : nat) (a : option string) (t : nsapi_ip_stack_t)
          (e : Engine) (ks : list call),
     let c := (final vendor cs ks (new_context id a t) e).1 in
     let h := run vendor cs ks (new_context id a t) e in
     state c = ACTIVE ->
     exists hd c',
       acquire_stack vendor c = (inr hd, c') /\
       state c' = ACTIVE /\
       h_context hd = id /\
       last_acknowledged cs (h_stack_type hd) h).
Proof.
  split; [apply acquire_stack_not_active|].
  intros id a t e ks c h Hs.
  assert (Hc : consistent cs c ([] ++ h)).
  { apply run_consistent. split; cbn; [intros [|]|]; discriminate. }
  cbn [app] in Hc. destruct Hc as [HA HB].
  destruct HA as (t' & Ht' & Hlast); [now right|].
  assert (Hid : ctx_id c = id) by apply final_ctx_id.
  pose proof (acquire_stack_state c) as Hst. clearbody c h.
  unfold acquire_stack in *. rewrite Hs in *.
  destruct (stack c) as [hd|] eqn:Hstack.
  - destruct (HB hd eq_refl) as (_ & Hhd & Hty).
    eexists _, _. split; [reflexivity|]. split; [exact Hst|].
    split; [congruence|]. rewrite Ht' in Hty. inversion Hty as [Heq].
    rewrite <- Heq. exact Hlast.
  - rewrite Ht' in *. eexists _, _. split; [reflexivity|].
    split; [exact Hst|]. split; [exact Hid | exact Hlast].
Qed.

End CellularContextFacts.

(** *** The order of the states *)

Section StateOrder.

Import CellularContext.

Lemma lawful_preceded (past : list ctx_state) (s : ctx_state)
    (step : cause * ctx_state) :
  preceded past s -> lawful s step -> preceded (s :: past) step.2.
Proof.
  destruct step as [[] s']; unfold lawful; cbn.
  - intros Hpast ->. destruct s; cbn in *; try exact I.
    + now exists past.
    + destruct Hpast as [r ->]. now exists r.
    + destruct Hpast as [r ->]. now exists r.
  - intros _ [_ ->]. exact I.
Qed.

(** In a lawful sequence of steps every occurrence of ACTIVE has
    ACTIVATING, STACK_NEGOTIATED and ATTACHING right behind it. *)
Lemma active_is_preceded (l : list (cause * ctx_state)) :
  forall past s pre post,
    preceded past s -> lawful_from s l ->
    s :: l.*2 = pre ++ ACTIVE :: post ->
    exists r, rev pre ++ past
              = ACTIVATING :: STACK_NEGOTIATED :: ATTACHING :: r.
Proof.
  induction l as [|step l IH]; intros past s pre post Hpast Hlaw Heq.
  - destruct pre as [|s0 pre]; cbn in Heq.
    + inversion Heq; subst. exact Hpast.
    + inversion Heq as [[Hs Hnil]]. destruct pre; discriminate Hnil.
  - destruct Hlaw as [Hstep Hlaw]. destruct pre as [|s0 pre]; cbn in Heq.
    + inversion Heq; subst. exact Hpast.
    + inversion Heq as [[Hs Hrest]]. subst s0.
      destruct (IH (s :: past) step.2 pre post) as [r Hr].
      * now apply lawful_preceded.
      * exact Hlaw.
      * exact Hrest.
      * exists r. cbn. now rewrite <- app_assoc.
Qed.

(** C7: in every execution of a context that starts DETACHED, (1) every
    step goes to the next state of the cycle DETACHED, ATTACHING,
    STACK_NEGOTIATED, ACTIVATING, ACTIVE, DEACTIVATING, DETACHED, or, on
    failure, from ACTIVATING or DEACTIVATING to DETACHED; (2) a step on
    failure belongs to a call that failed; (3) wherever ACTIVE occurs
    among the states visited, the three states before it are ATTACHING,
    STACK_NEGOTIATED and ACTIVATING, in this order. *)
Theorem active_only_through_the_cycle (vendor : Variant) (cs : command_set)
    (id : nat) (a : option string) (t : nsapi_ip_stack_t)
    (e : ATEngine.Engine) (ks : list call) :
  let c := new_context id a t in
  let h := run vendor cs ks c e in
  lawful_from DETACHED (steps h) /\
  (forall k o s, (k, o) ∈ h -> (failed, s) ∈ o_trail o -> o_failure o <> None) /\
  (forall pre post, visited c h = pre ++ ACTIVE :: post ->
     exists pre', pre = pre' ++ [ATTACHING; STACK_NEGOTIATED; ACTIVATING]).
Proof.
  intros c h. split; [|split].
  - apply (run_steps vendor cs ks c e).
  - intros k o s. apply run_failed_steps.
  - intros pre post Heq.
    destruct (active_is_preceded (steps h) [] DETACHED pre post) as [r Hr].
    + exact I.
    + apply (run_steps vendor cs ks c e).
    + exact Heq.
    + rewrite app_nil_r in Hr. exists (rev r).
      rewrite <- (rev_involutive pre), Hr. cbn.
      now rewrite <- !app_assoc.
Qed.

End StateOrder.


(** ** Instances *)

Section Instances.

Import ATEngine CellularContext.
Local Close Scope Z_scope.
Local Open Scope string_scope.
Local Open Scope nat_scope.
Local Open Scope list_scope.

Lemma urc_dispatched_once_and_excluded_witness :
  exists calls,
    invoked (send example_engine (AT "AT+CGATT?" 100)).2
    = invoked example_engine ++ calls /\
    List.filter (fun k => (call_line_no k =? 1) && (call_handler k =? 7)) calls
    = [ {| call_line_no := 1; call_handler := 7; call_line := "+CEREG: 1" |} ]
    /\
    forall lines,
      (send example_engine (AT "AT+CGATT?" 100)).1 = OK_with_payload lines ->
      "+CEREG: 1" ∉ lines.
Proof.
  apply (urc_dispatched_once_and_excluded example_engine (AT "AT+CGATT?" 100)
           "+CEREG:" 7 [(2, "data")] [(1, "OK")] 3 "+CEREG: 1").
  - vm_compute. reflexivity.
  - reflexivity.
  - vm_compute. lia.
  - repeat constructor.
  - reflexivity.
  - reflexivity.
Defined.


Lemma negotiate_stack_unsupported_witness :
  o_failure (negotiate_stack ipv4_only example_commands dual_stack_attached
               granting_ipv4)
  = Some UNSUPPORTED_STACK_TYPE /\
  state (o_context (negotiate_stack ipv4_only example_commands
                      dual_stack_attached granting_ipv4)) = ATTACHING /\
  o_context (negotiate_stack ipv4_only example_commands dual_stack_attached
               granting_ipv4) = dual_stack_attached /\
  o_engine (negotiate_stack ipv4_only example_commands dual_stack_attached
              granting_ipv4) = granting_ipv4 /\
  o_trail (negotiate_stack ipv4_only example_commands dual_stack_attached
             granting_ipv4) = [].
Proof.
  apply (negotiate_stack_unsupported ipv4_only example_commands
           dual_stack_attached granting_ipv4).
  - reflexivity.
  - reflexivity.
Defined.

Lemma active_only_through_the_cycle_witness :
  exists pre',
    [DETACHED; ATTACHING; STACK_NEGOTIATED; ACTIVATING]
    = pre' ++ [ATTACHING; STACK_NEGOTIATED; ACTIVATING].
Proof.
  apply (proj2 (proj2 (active_only_through_the_cycle generic_variant
                         example_commands 1 None IPV4V6_STACK granting_ipv4
                         [call_attach; call_negotiate_stack; call_activate]))
           [DETACHED; ATTACHING; STACK_NEGOTIATED; ACTIVATING] []).
  vm_compute. reflexivity.
Defined.

Lemma acquire_stack_only_when_active_witness :
  acquire_stack generic_variant dual_stack_attached
  = (inl NOT_ACTIVE, dual_stack_attached) /\
  exists hd c',
    acquire_stack generic_variant
      (final generic_variant example_commands
         [call_attach; call_negotiate_stack; call_activate]
         (new_context 1 None IPV4V6_STACK) granting_ipv4).1
    = (inr hd, c') /\
    state c' = ACTIVE /\
    h_context hd = 1 /\
    last_acknowledged example_commands (h_stack_type hd)
      (run generic_variant example_commands
         [call_attach; call_negotiate_stack; call_activate]
         (new_context 1 None IPV4V6_STACK) granting_ipv4).
Proof.
  destruct (acquire_stack_only_when_active generic_variant example_commands)
    as [Hno Hyes].
  split.
  - apply Hno. vm_compute. discriminate.
  - apply (Hyes 1 None IPV4V6_STACK granting_ipv4
             [call_attach; call_negotiate_stack; call_activate]).
    vm_compute. reflexivity.
Defined.

(** Dual stack is requested from a variant that supports it; the modem
    acknowledges IPv4; the handle is bound to IPv4. *)
Example handle_bound_to_acknowledged_type :
  let ks := [call_attach; call_negotiate_stack; call_activate] in
  let c := (final generic_variant example_commands ks
              (new_context 1 None IPV4V6_STACK) granting_ipv4).1 in
  stack_type_requested c = IPV4V6_STACK /\
  state c = ACTIVE /\
  (acquire_stack generic_variant c).1
  = inr {| h_context := 1; h_stack_type := IPV4_STACK; h_stack := "default" |}.
Proof. vm_compute. repeat split. Qed.

(** The scenarios of section 8: [OK] to the attach command takes the
    context from DETACHED to ATTACHING with no error recorded; [+CME
    ERROR: 3] is DEVICE_ERROR(3) and the context stays DETACHED. *)
Example attach_scenarios :
  let c := new_context 1 None IPV4_STACK in
  let good := attach example_commands c (idle_engine [(1, "OK")]) in
  let bad := attach example_commands c (idle_engine [(1, "+CME ERROR: 3")]) in
  (o_failure good = None /\ state (o_context good) = ATTACHING /\
   get_last_error (o_engine good) = ERR_NONE) /\
  (o_reply bad = Some (DEVICE_ERROR 3) /\
   o_failure bad = Some (FAILED_DEVICE_ERROR 3) /\
   state (o_context bad) = DETACHED).
Proof. vm_compute. repeat split. Qed.

(** A whole life cycle, with a deactivation that is refused while the IP
    layer holds the handle. *)
Example life_cycle :
  visited (new_context 1 None IPV4V6_STACK)
    (run generic_variant example_commands
       [call_attach; call_negotiate_stack; call_activate; call_acquire_stack;
        call_deactivate; call_release_stack; call_deactivate]
       (new_context 1 None IPV4V6_STACK) granting_ipv4)
  = [DETACHED; ATTACHING; STACK_NEGOTIATED; ACTIVATING; ACTIVE; DEACTIVATING;
     DETACHED].
Proof. vm_compute. reflexivity. Qed.

End Instances.

(** * Further properties of the sources *)

(** ** watchdog_api.c *)

Section WatchdogMore.

Import Watchdog WatchdogRuns.

(** The wrapped product keeps the timeout modulo 2^17 only. *)
Lemma u32_mul_32768 (t : Z) : u32 (t * 32768) = t mod 131072 * 32768.
Proof.
  unfold u32. change (2 ^ 32) with (131072 * 32768).
  rewrite Z.mul_mod_distr_r by lia. reflexivity.
Qed.

Lemma timeout_ticks_closed_form (config : watchdog_config_t) :
  timeout_ticks config = timeout_ms config mod 131072 * 32768 / 1000.
Proof. unfold timeout_ticks. now rewrite u32_mul_32768. Qed.

Lemma accepted_iff (config : watchdog_config_t) :
  (0 <? timeout_ticks config) && (timeout_ticks config <? UINT32_MAX) = true
  <-> timeout_ms config mod 131072 <> 0.
Proof.
  pose proof (timeout_ticks_bounds config) as [Hlo Hhi].
  pose proof (Z.mod_pos_bound (timeout_ms config) 131072 eq_refl) as [Hm _].
  rewrite andb_true_iff, !Z.ltb_lt. split.
  - intros [Hpos _] Hz. rewrite timeout_ticks_closed_form, Hz in Hpos.
    change (0 * 32768 / 1000) with 0 in Hpos. lia.
  - intros Hnz. split; [|exact Hhi]. rewrite timeout_ticks_closed_form.
    apply Z.div_str_pos. lia.
Qed.

(** X1: [hal_watchdog_init] accepts a configuration exactly when its
    timeout is not a multiple of 131072 ms; 0 is refused with the other
    multiples. *)
Theorem hal_watchdog_init_accepts_iff (config : watchdog_config_t)
    (s : state) :
  (hal_watchdog_init config s).1 = WATCHDOG_STATUS_OK
  <-> timeout_ms config mod 131072 <> 0.
Proof.
  rewrite <- accepted_iff. unfold hal_watchdog_init.
  destruct ((0 <? timeout_ticks config) && (timeout_ticks config <? UINT32_MAX));
    cbn; split; intros H; congruence.
Qed.

(** X2: timeouts that differ by a multiple of 131072 ms are
    indistinguishable to the peripheral: they get the same status and
    the same registers. *)
Theorem hal_watchdog_init_aliases (t k : Z) (s : state) :
  (hal_watchdog_init {| timeout_ms := t + k * 131072 |} s).1
  = (hal_watchdog_init {| timeout_ms := t |} s).1 /\
  wdt (hal_watchdog_init {| timeout_ms := t + k * 131072 |} s).2
  = wdt (hal_watchdog_init {| timeout_ms := t |} s).2.
Proof.
  assert (Hticks : timeout_ticks {| timeout_ms := t + k * 131072 |}
                   = timeout_ticks {| timeout_ms := t |}).
  { rewrite !timeout_ticks_closed_form. cbn [timeout_ms].
    now rewrite Z.mod_add by lia. }
  unfold hal_watchdog_init. rewrite Hticks.
  destruct ((0 <? timeout_ticks {| timeout_ms := t |})
            && (timeout_ticks {| timeout_ms := t |} <? UINT32_MAX));
    split; reflexivity.
Qed.

(** X3: for a timeout from 1 ms to 131071 ms the configuration is
    accepted and the reload register gets the number of whole 32768 Hz
    ticks of the timeout: the period is not longer than asked for, and
    shorter by less than one tick. *)
Theorem hal_watchdog_init_whole_ticks (config : watchdog_config_t)
    (s : state) :
  1 <= timeout_ms config <= 131071 ->
  (hal_watchdog_init config s).1 = WATCHDOG_STATUS_OK /\
  wdt_reload_value (wdt (hal_watchdog_init config s).2) * 1000
  <= timeout_ms config * 32768
  < (wdt_reload_value (wdt (hal_watchdog_init config s).2) + 1) * 1000.
Proof.
  intros Ht.
  assert (Hmod : timeout_ms config mod 131072 = timeout_ms config)
    by (apply Z.mod_small; lia).
  assert (Hacc : (0 <? timeout_ticks config)
                 && (timeout_ticks config <? UINT32_MAX) = true).
  { apply accepted_iff. lia. }
  pose proof (timeout_ticks_bounds config) as [Hlo Hhi].
  unfold hal_watchdog_init. rewrite Hacc. cbn.
  split; [reflexivity|].
  assert (Hu : u32 (timeout_ticks config) = timeout_ticks config).
  { unfold u32. apply Z.mod_small. unfold UINT32_MAX in Hhi. lia. }
  rewrite Hu, timeout_ticks_closed_form, Hmod.
  pose proof (Z.mul_div_le (timeout_ms config * 32768) 1000 eq_refl).
  pose proof (Z.mul_succ_div_gt (timeout_ms config * 32768) 1000 eq_refl).
  lia.
Qed.

(** X4: an accepted configuration never makes the watchdog wait longer
    than the timeout asked for: the reload value, in ticks of 1/32768 s,
    does not exceed the timeout. *)
Theorem hal_watchdog_init_never_longer (config : watchdog_config_t)
    (s : state) :
  0 <= timeout_ms config ->
  (hal_watchdog_init config s).1 = WATCHDOG_STATUS_OK ->
  wdt_reload_value (wdt (hal_watchdog_init config s).2) * 1000
  <= timeout_ms config * 32768.
Proof.
  intros Ht. unfold hal_watchdog_init.
  pose proof (timeout_ticks_bounds config) as [Hlo Hhi].
  destruct ((0 <? timeout_ticks config) && (timeout_ticks config <? UINT32_MAX));
    cbn; [intros _ | discriminate].
  assert (Hu : u32 (timeout_ticks config) = timeout_ticks config).
  { unfold u32. apply Z.mod_small. unfold UINT32_MAX in Hhi. lia. }
  rewrite Hu. unfold timeout_ticks.
  assert (Hle : u32 (timeout_ms config * 32768) <= timeout_ms config * 32768).
  { unfold u32. apply Z.mod_le; lia. }
  pose proof (Z.mul_div_le (u32 (timeout_ms config * 32768)) 1000 eq_refl).
  lia.
Qed.

Lemma u32_timeout_ticks (config : watchdog_config_t) :
  u32 (timeout_ticks config) = timeout_ticks config.
Proof.
  pose proof (timeout_ticks_bounds config) as [Hlo Hhi].
  unfold u32. apply Z.mod_small. unfold UINT32_MAX in Hhi. lia.
Qed.

(** X5: whatever the timeout, the tick count is at most 4294967 (about
    131 s): the test [timeout_ticks < UINT32_MAX] of the range check can
    never fail, and the count fits the 32-bit reload register. *)
Theorem timeout_ticks_at_most (config : watchdog_config_t) :
  0 <= timeout_ticks config <= 4294967 /\
  (timeout_ticks config <? UINT32_MAX) = true /\
  u32 (timeout_ticks config) = timeout_ticks config.
Proof.
  assert (Hb : 0 <= timeout_ticks config <= 4294967).
  { unfold timeout_ticks, u32.
    pose proof (Z.mod_pos_bound (timeout_ms config * 32768) (2 ^ 32) eq_refl)
      as [Hlo Hhi].
    split; [apply Z.div_pos; lia|].
    apply Z.lt_succ_r. apply Z.div_lt_upper_bound; lia. }
  split; [exact Hb|]. split.
  - apply Z.ltb_lt. unfold UINT32_MAX. lia.
  - unfold u32. apply Z.mod_small. lia.
Qed.

(** X6: an accepted configuration replaces whatever an earlier
    [hal_watchdog_init] did: the state is the one the call gives without
    the earlier one. *)
Theorem hal_watchdog_init_overrides (earlier config : watchdog_config_t)
    (s : state) :
  (hal_watchdog_init config s).1 = WATCHDOG_STATUS_OK ->
  hal_watchdog_init config (hal_watchdog_init earlier s).2
  = hal_watchdog_init config s.
Proof.
  unfold hal_watchdog_init.
  destruct ((0 <? timeout_ticks config) && (timeout_ticks config <? UINT32_MAX));
    cbn; [intros _ | discriminate].
  destruct ((0 <? timeout_ticks earlier) && (timeout_ticks earlier <? UINT32_MAX));
    reflexivity.
Qed.

Lemma perform_reload_value (k : call) (s : state) :
  hal_watchdog_get_reload_value (perform k s)
  = last_timeout [k] (hal_watchdog_get_reload_value s).
Proof.
  destruct k as [config| |]; cbn; try reflexivity.
  unfold hal_watchdog_init.
  destruct ((0 <? timeout_ticks config) && (timeout_ticks config <? UINT32_MAX))
    eqn:Hacc; cbn.
  - apply accepted_iff in Hacc. apply Z.eqb_neq in Hacc. now rewrite Hacc.
  - destruct (Z.eqb_spec (timeout_ms config mod 131072) 0) as [|Hnz];
      [reflexivity|].
    apply accepted_iff in Hnz. congruence.
Qed.

(** X7: after any sequence of [hal_watchdog_init], [hal_watchdog_kick]
    and [hal_watchdog_stop], [hal_watchdog_get_reload_value] returns the
    timeout of the last [hal_watchdog_init] whose timeout is not a
    multiple of 131072 ms, and what it returned before the sequence when
    there is none. *)
Theorem reload_value_is_last_accepted (ks : list call) :
  forall s : state,
    hal_watchdog_get_reload_value (run ks s)
    = last_timeout ks (hal_watchdog_get_reload_value s).
Proof.
  induction ks as [|k ks IH]; intros s; [reflexivity|].
  change (run (k :: ks) s) with (run ks (perform k s)).
  rewrite IH, perform_reload_value. destruct k; reflexivity.
Qed.

Lemma perform_programmed (k : call) (s : state) :
  programmed s -> programmed (perform k s).
Proof.
  intros Hs. destruct k as [config| |]; cbn.
  - unfold hal_watchdog_init.
    destruct ((0 <? timeout_ticks config) && (timeout_ticks config <? UINT32_MAX))
      eqn:Hacc; cbn; [|exact Hs].
    intros _. cbn.
    pose proof (u32_timeout_ticks config) as Hu.
    apply andb_true_iff in Hacc as [Hpos Hmax].
    apply Z.ltb_lt in Hpos, Hmax. rewrite Hu.
    destruct config as [t]. cbn. repeat split; assumption.
  - exact Hs.
  - exact Hs.
Qed.

(** X8: the milliseconds stored for read-back and the peripheral stay in
    step through every sequence of calls: once the watchdog is started,
    its reload register holds the tick count of the stored timeout, a
    value strictly between 0 and UINT32_MAX, and it runs while the CPU
    sleeps with reload channel 0 enabled. *)
Theorem programmed_invariant (ks : list call) :
  forall s : state, programmed s -> programmed (run ks s).
Proof.
  induction ks as [|k ks IH]; intros s Hs; [exact Hs|].
  change (run (k :: ks) s) with (run ks (perform k s)).
  apply IH. now apply perform_programmed.
Qed.

Lemma perform_started (k : call) (s : state) :
  wdt_started (wdt s) = true -> wdt_started (wdt (perform k s)) = true.
Proof.
  intros Hs. destruct k as [config| |]; cbn; try exact Hs.
  unfold hal_watchdog_init.
  destruct ((0 <? timeout_ticks config) && (timeout_ticks config <? UINT32_MAX));
    cbn; [reflexivity | exact Hs].
Qed.

(** X9: [hal_watchdog_stop] always returns WATCHDOG_STATUS_OK, yet
    nothing stops a watchdog that has been started: it is still started
    after every sequence of calls, [hal_watchdog_stop] included, which
    keeps the reload value and only masks the timeout interrupt. *)
Theorem started_watchdog_keeps_running (ks : list call) :
  forall s : state,
    wdt_started (wdt s) = true ->
    wdt_started (wdt (run ks s)) = true /\
    (hal_watchdog_stop (run ks s)).1 = WATCHDOG_STATUS_OK /\
    wdt_started (wdt (hal_watchdog_stop (run ks s)).2) = true /\
    wdt_reload_value (wdt (hal_watchdog_stop (run ks s)).2)
    = wdt_reload_value (wdt (run ks s)) /\
    wdt_int_timeout (wdt (hal_watchdog_stop (run ks s)).2) = false.
Proof.
  induction ks as [|k ks IH]; intros s Hs.
  - cbn. repeat split; assumption.
  - change (run (k :: ks) s) with (run ks (perform k s)).
    apply IH. now apply perform_started.
Qed.

End WatchdogMore.

Section WatchdogInstances.

Import Watchdog WatchdogRuns.

Lemma hal_watchdog_init_whole_ticks_witness :
  (hal_watchdog_init {| timeout_ms := 5000 |} initial_state).1
  = WATCHDOG_STATUS_OK /\
  wdt_reload_value
    (wdt (hal_watchdog_init {| timeout_ms := 5000 |} initial_state).2) * 1000
  <= 5000 * 32768
  < (wdt_reload_value
       (wdt (hal_watchdog_init {| timeout_ms := 5000 |} initial_state).2) + 1)
    * 1000.
Proof.
  apply (hal_watchdog_init_whole_ticks {| timeout_ms := 5000 |} initial_state).
  cbn [timeout_ms]. lia.
Defined.

Lemma hal_watchdog_init_never_longer_witness :
  wdt_reload_value
    (wdt (hal_watchdog_init {| timeout_ms := 131073 |} initial_state).2) * 1000
  <= 131073 * 32768.
Proof.
  apply (hal_watchdog_init_never_longer {| timeout_ms := 131073 |}
           initial_state).
  - cbn [timeout_ms]. lia.
  - reflexivity.
Defined.

Lemma hal_watchdog_init_overrides_witness :
  hal_watchdog_init {| timeout_ms := 5000 |}
    (hal_watchdog_init {| timeout_ms := 1000 |} initial_state).2
  = hal_watchdog_init {| timeout_ms := 5000 |} initial_state.
Proof.
  apply (hal_watchdog_init_overrides {| timeout_ms := 1000 |}
           {| timeout_ms := 5000 |} initial_state).
  reflexivity.
Defined.

Lemma programmed_invariant_witness :
  wdt_reload_value
    (wdt (run [call_init {| timeout_ms := 5000 |}; call_kick; call_stop;
               call_init {| timeout_ms := 131072 |}; call_kick]
            initial_state))
  = timeout_ticks {| timeout_ms := 5000 |}.
Proof.
  refine (proj1 (programmed_invariant
                   [call_init {| timeout_ms := 5000 |}; call_kick; call_stop;
                    call_init {| timeout_ms := 131072 |}; call_kick]
                   initial_state _ _)).
  - intros Hstarted. vm_compute in Hstarted. discriminate Hstarted.
  - vm_compute. reflexivity.
Defined.

Lemma started_watchdog_keeps_running_witness :
  wdt_started
    (wdt (run [call_stop; call_kick; call_stop]
            (hal_watchdog_init {| timeout_ms := 5000 |} initial_state).2))
  = true.
Proof.
  refine (proj1 (started_watchdog_keeps_running
                   [call_stop; call_kick; call_stop]
                   (hal_watchdog_init {| timeout_ms := 5000 |} initial_state).2
                   _)).
  vm_compute. reflexivity.
Defined.

End WatchdogInstances.

(** ** reset_reason_api.c *)

Section ResetReasonMore.

Import ResetReason ResetReasonClear.

Lemma classification_in (m : resetreas_masks) (v : Z) (r : reset_reason_t) :
  classification m v = Some r -> (v, r) ∈ recognized m.
Proof.
  unfold classification.
  destruct (List.find (fun e => v =? e.1) (recognized m)) as [[v' r']|] eqn:Hf;
    [|discriminate].
  cbn. intros [= <-]. apply find_some in Hf as [Hin Heq]. cbn in Heq.
  apply Z.eqb_eq in Heq. subst v'. now apply list_elem_of_In.
Qed.

Lemma classification_none (m : resetreas_masks) (v : Z) :
  classification m v = None <-> v ∉ masks m.
Proof.
  split; [|apply classification_unrecognized].
  unfold classification, masks.
  destruct (List.find (fun e => v =? e.1) (recognized m)) as [e|] eqn:Hf;
    [discriminate|].
  intros _ Hin. apply list_elem_of_fmap in Hin as ([v' r'] & Hv & Hin).
  cbn in Hv. subst v'. apply list_elem_of_In in Hin.
  pose proof (find_none _ _ Hf _ Hin) as Hne. cbn in Hne.
  now rewrite Z.eqb_refl in Hne.
Qed.

(** What the table of recognized masks holds. *)
Lemma recognized_inv (m : resetreas_masks) (v : Z) (r : reset_reason_t) :
  (v, r) ∈ recognized m <->
  (v = NRF_POWER_RESETREAS_RESETPIN_MASK m /\ r = RESET_REASON_PIN_RESET) \/
  (v = NRF_POWER_RESETREAS_DOG_MASK m /\ r = RESET_REASON_WATCHDOG) \/
  (v = NRF_POWER_RESETREAS_SREQ_MASK m /\ r = RESET_REASON_SOFTWARE) \/
  (v = NRF_POWER_RESETREAS_LOCKUP_MASK m /\ r = RESET_REASON_LOCKUP) \/
  (v ∈ platform_masks m /\ r = RESET_REASON_PLATFORM).
Proof.
  unfold recognized, platform_masks.
  destruct m as [m1 m2 m3 m4 m5 m6 [m7|] [m8|] [m9|]]; cbn;
    rewrite ?elem_of_cons, ?elem_of_nil; split; intros H;
    repeat match goal with
           | H : _ \/ _ |- _ => destruct H as [H|H]
           | H : _ /\ _ |- _ => destruct H as [? ?]
           | H : (_, _) = (_, _) |- _ => inversion H; clear H
           | H : False |- _ => destruct H
           end; subst; tauto.
Qed.

Lemma platform_masks_are_masks (m : resetreas_masks) (v : Z) :
  v ∈ platform_masks m -> v ∈ masks m.
Proof.
  intros Hv. unfold masks. apply list_elem_of_fmap.
  exists (v, RESET_REASON_PLATFORM). split; [reflexivity|].
  apply recognized_inv. tauto.
Qed.

(** X10: RESET_REASON_UNKNOWN is returned exactly when the raw register
    that [hal_reset_reason_get_raw] returns is 0. *)
Theorem unknown_iff_raw_is_zero (m : resetreas_masks) (p : nrf_power) :
  0 ∉ masks m ->
  (hal_reset_reason_get m p = RESET_REASON_UNKNOWN
   <-> hal_reset_reason_get_raw p = 0).
Proof.
  intros Hzero. unfold hal_reset_reason_get_raw, nrf_power_resetreas_get.
  rewrite hal_reset_reason_get_table. split.
  - destruct (classification m (RESETREAS p)) as [r|] eqn:Hc.
    + intros ->. apply classification_in, recognized_inv in Hc.
      intuition discriminate.
    + destruct (Z.eqb_spec (RESETREAS p) 0); [trivial | discriminate].
  - intros ->. now rewrite (classification_unrecognized m 0 Hzero).
Qed.

(** X11: the four specific reasons are decoded one to one: each is
    returned exactly when the register equals its mask. *)
Theorem specific_reasons_decode (m : resetreas_masks) (p : nrf_power) :
  masks_distinct m ->
  (hal_reset_reason_get m p = RESET_REASON_PIN_RESET
   <-> RESETREAS p = NRF_POWER_RESETREAS_RESETPIN_MASK m) /\
  (hal_reset_reason_get m p = RESET_REASON_WATCHDOG
   <-> RESETREAS p = NRF_POWER_RESETREAS_DOG_MASK m) /\
  (hal_reset_reason_get m p = RESET_REASON_SOFTWARE
   <-> RESETREAS p = NRF_POWER_RESETREAS_SREQ_MASK m) /\
  (hal_reset_reason_get m p = RESET_REASON_LOCKUP
   <-> RESETREAS p = NRF_POWER_RESETREAS_LOCKUP_MASK m).
Proof.
  intros Hm. rewrite hal_reset_reason_get_table.
  assert (Hback : forall r, (RESETREAS p, r) ∈ recognized m ->
            match classification m (RESETREAS p) with
            | Some r' => r'
            | None => if RESETREAS p =? 0 then RESET_REASON_UNKNOWN
                      else RESET_REASON_MULTIPLE
            end = r).
  { intros r Hin. now rewrite (classification_recognized m _ r Hm Hin). }
  assert (Hforth : forall r,
            r <> RESET_REASON_UNKNOWN -> r <> RESET_REASON_MULTIPLE ->
            match classification m (RESETREAS p) with
            | Some r' => r'
            | None => if RESETREAS p =? 0 then RESET_REASON_UNKNOWN
                      else RESET_REASON_MULTIPLE
            end = r -> (RESETREAS p, r) ∈ recognized m).
  { intros r Hu Hmu.
    destruct (classification m (RESETREAS p)) as [r'|] eqn:Hc.
    - intros ->. now apply classification_in.
    - destruct (RESETREAS p =? 0); congruence. }
  repeat split; intros H;
    try (apply Hforth in H; [|discriminate|discriminate];
         apply recognized_inv in H; intuition congruence);
    apply Hback, recognized_inv; rewrite H; tauto.
Qed.

(** X12: RESET_REASON_PLATFORM is returned exactly for the OFF, DIF,
    LPCOMP, NFC and VBUS masks that the chip defines, and
    RESET_REASON_MULTIPLE exactly for the values that are neither 0 nor
    a recognized mask. *)
Theorem platform_and_multiple (m : resetreas_masks) (p : nrf_power) :
  masks_distinct m ->
  (hal_reset_reason_get m p = RESET_REASON_PLATFORM
   <-> RESETREAS p ∈ platform_masks m) /\
  (hal_reset_reason_get m p = RESET_REASON_MULTIPLE
   <-> RESETREAS p <> 0 /\ RESETREAS p ∉ masks m).
Proof.
  intros Hm. rewrite hal_reset_reason_get_table. split; split.
  - destruct (classification m (RESETREAS p)) as [r|] eqn:Hc.
    + intros ->. apply classification_in, recognized_inv in Hc.
      intuition discriminate.
    + destruct (RESETREAS p =? 0); discriminate.
  - intros Hin.
    rewrite (classification_recognized m _ RESET_REASON_PLATFORM Hm);
      [reflexivity|]. apply recognized_inv. tauto.
  - destruct (classification m (RESETREAS p)) as [r|] eqn:Hc.
    + intros ->. apply classification_in, recognized_inv in Hc.
      intuition discriminate.
    + apply classification_none in Hc.
      destruct (Z.eqb_spec (RESETREAS p) 0); [discriminate|]. now split.
  - intros [Hnz Hnot]. rewrite (classification_unrecognized m _ Hnot).
    destruct (Z.eqb_spec (RESETREAS p) 0); [contradiction | reflexivity].
Qed.

(** X13: when every mask is a single bit, a register with two different
    bits set, that is with more than one reason latched, reads
    RESET_REASON_MULTIPLE. *)
Theorem two_bits_are_multiple (m : resetreas_masks) (p : nrf_power)
    (i j : Z) :
  single_bits m ->
  i <> j ->
  Z.testbit (RESETREAS p) i = true ->
  Z.testbit (RESETREAS p) j = true ->
  hal_reset_reason_get m p = RESET_REASON_MULTIPLE.
Proof.
  intros Hbits Hij Hi Hj. rewrite hal_reset_reason_get_table.
  assert (Hnot : RESETREAS p ∉ masks m).
  { intros Hin. unfold single_bits in Hbits.
    rewrite Forall_forall in Hbits. destruct (Hbits _ Hin) as (k & Hk & Heq).
    rewrite Z.shiftl_1_l in Heq. rewrite Heq in Hi, Hj.
    rewrite Z.pow2_bits_eqb in Hi, Hj by exact Hk.
    apply Z.eqb_eq in Hi, Hj. congruence. }
  rewrite (classification_unrecognized m _ Hnot).
  destruct (Z.eqb_spec (RESETREAS p) 0) as [Hz|]; [|reflexivity].
  rewrite Hz, Z.bits_0 in Hi. discriminate.
Qed.

(** X14: on a register whose fields are cleared by writing 1 to them,
    [hal_reset_reason_clear] clears every reason that is set: afterwards
    the raw value is 0 and [hal_reset_reason_get] returns
    RESET_REASON_UNKNOWN. *)
Theorem clear_then_unknown
    (nrf_power_resetreas_clear : Z -> nrf_power -> nrf_power)
    (m : resetreas_masks) (p : nrf_power) :
  write_one_to_clear nrf_power_resetreas_clear ->
  0 ∉ masks m ->
  hal_reset_reason_get_raw
    (hal_reset_reason_clear nrf_power_resetreas_clear p) = 0 /\
  hal_reset_reason_get m (hal_reset_reason_clear nrf_power_resetreas_clear p)
  = RESET_REASON_UNKNOWN.
Proof.
  intros Hw1c Hzero.
  assert (Hraw : RESETREAS (hal_reset_reason_clear nrf_power_resetreas_clear p)
                 = 0).
  { unfold hal_reset_reason_clear, nrf_power_resetreas_get.
    rewrite Hw1c. apply Z.land_lnot_diag. }
  split; [exact Hraw|].
  rewrite hal_reset_reason_get_table, Hraw.
  now rewrite (classification_unrecognized m 0 Hzero).
Qed.

End ResetReasonMore.

Section ResetReasonInstances.

Import ResetReason ResetReasonClear.

Lemma nrf52840_single_bits : single_bits nrf52840_masks.
Proof.
  unfold single_bits.
  change (masks nrf52840_masks)
    with [1; 2; 4; 8; 65536; 262144; 131072; 524288; 1048576].
  repeat (apply List.Forall_cons); try apply List.Forall_nil;
    [exists 0 | exists 1 | exists 2 | exists 3 | exists 16 | exists 18
     | exists 17 | exists 19 | exists 20];
    (split; [lia | reflexivity]).
Qed.

Lemma unknown_iff_raw_is_zero_witness :
  hal_reset_reason_get nrf52840_masks {| RESETREAS := 0 |}
  = RESET_REASON_UNKNOWN.
Proof.
  apply (proj2 (unknown_iff_raw_is_zero nrf52840_masks {| RESETREAS := 0 |}
                  (proj2 nrf52840_masks_distinct))).
  reflexivity.
Defined.

Lemma specific_reasons_decode_witness :
  hal_reset_reason_get nrf52840_masks {| RESETREAS := 8 |}
  = RESET_REASON_LOCKUP.
Proof.
  apply (proj2 (proj2 (proj2 (proj2
           (specific_reasons_decode nrf52840_masks {| RESETREAS := 8 |}
              nrf52840_masks_distinct))))).
  reflexivity.
Defined.

Lemma platform_and_multiple_witness :
  hal_reset_reason_get nrf52840_masks {| RESETREAS := 524288 |}
  = RESET_REASON_PLATFORM /\
  hal_reset_reason_get nrf52840_masks {| RESETREAS := 5 |}
  = RESET_REASON_MULTIPLE.
Proof.
  destruct (platform_and_multiple nrf52840_masks {| RESETREAS := 524288 |}
              nrf52840_masks_distinct) as [Hplatform _].
  destruct (platform_and_multiple nrf52840_masks {| RESETREAS := 5 |}
              nrf52840_masks_distinct) as [_ Hmultiple].
  split.
  - apply Hplatform. apply (bool_decide_unpack _). vm_compute. exact I.
  - apply Hmultiple. split.
    + cbn. lia.
    + apply (bool_decide_unpack _). vm_compute. exact I.
Defined.

Lemma two_bits_are_multiple_witness :
  hal_reset_reason_get nrf52840_masks {| RESETREAS := 3 |}
  = RESET_REASON_MULTIPLE.
Proof.
  apply (two_bits_are_multiple nrf52840_masks {| RESETREAS := 3 |} 0 1
           nrf52840_single_bits).
  - lia.
  - reflexivity.
  - reflexivity.
Defined.

Lemma clear_then_unknown_witness :
  hal_reset_reason_get_raw
    (hal_reset_reason_clear resetreas_w1c {| RESETREAS := 6 |}) = 0 /\
  hal_reset_reason_get nrf52840_masks
    (hal_reset_reason_clear resetreas_w1c {| RESETREAS := 6 |})
  = RESET_REASON_UNKNOWN.
Proof.
  apply (clear_then_unknown resetreas_w1c nrf52840_masks {| RESETREAS := 6 |}).
  - intros mask p. reflexivity.
  - apply (bool_decide_unpack _). vm_compute. exact I.
Defined.

End ResetReasonInstances.

(** ** tmpm46bf10fg.sct *)

Section ScatterFacts.

Import ScatterTMPM46B.

Lemma AlignExpr_16 (e : Z) :
  e <= AlignExpr e 16 < e + 16 /\ AlignExpr e 16 mod 16 = 0.
Proof.
  unfold AlignExpr.
  pose proof (Z.div_mod (e + 16 - 1) 16 ltac:(lia)) as Hdm.
  pose proof (Z.mod_pos_bound (e + 16 - 1) 16 eq_refl) as Hb.
  split; [lia|]. apply Z.mod_mul. lia.
Qed.

Lemma Stack_Size_constant (d : defines) :
  unsigned_constants d -> 0 <= Stack_Size d.
Proof.
  intros (_ & _ & _ & _ & Hconf & Hboot).
  unfold Stack_Size, MBED_CONF_TARGET_BOOT_STACK_SIZE.
  destruct (def_MBED_CONF_TARGET_BOOT_STACK_SIZE d); [exact Hconf|].
  destruct (def_MBED_BOOT_STACK_SIZE d); cbn in *; lia.
Qed.

(** X15: the macros are left undefined or defined as unsigned integer
    constants, and the data of RW_IRAM1, which end at [image_limit], fit
    below the stack once rounded up to 16 bytes.  Then the regions tile
    the RAM: the data region starts right after the vector area and may
    extend to the bottom of the stack; the heap starts at the first
    16-byte boundary at or after the end of the data and ends exactly
    where the stack begins; the stack has [Stack_Size] bytes and ends at
    the top of the RAM. *)
Theorem ram_regions_tile (d : defines) (image_limit : Z) :
  unsigned_constants d ->
  AlignExpr image_limit 16
  <= MBED_RAM_START d + MBED_RAM_SIZE d - Stack_Size d ->
  r_base (RW_IRAM1 d) = MBED_RAM_START d + VECTOR_SIZE /\
  r_limit (RW_IRAM1 d) = r_base (ARM_LIB_STACK d) /\
  image_limit <= r_base (ARM_LIB_HEAP d image_limit) < image_limit + 16 /\
  r_base (ARM_LIB_HEAP d image_limit) mod 16 = 0 /\
  r_limit (ARM_LIB_HEAP d image_limit) = r_base (ARM_LIB_STACK d) /\
  0 <= r_size (ARM_LIB_HEAP d image_limit) /\
  r_size (ARM_LIB_STACK d) = Stack_Size d /\
  r_limit (ARM_LIB_STACK d) = MBED_RAM_START d + MBED_RAM_SIZE d.
Proof.
  intros Hconst Hfits. pose proof (Stack_Size_constant d Hconst) as Hstack.
  destruct (AlignExpr_16 image_limit) as [Hle Hmod].
  unfold r_size, RW_IRAM1, ARM_LIB_HEAP, ARM_LIB_STACK, EMPTY,
    MBED_IRAM1_START, MBED_IRAM1_SIZE, RAM_FIXED_SIZE in *.
  fold (Stack_Size d).
  destruct (Z.ltb_spec (- Stack_Size d) 0);
    destruct (Z.ltb_spec
                (MBED_RAM_SIZE d - (Stack_Size d + VECTOR_SIZE)
                 - (AlignExpr image_limit 16 - (MBED_RAM_START d + VECTOR_SIZE)))
                0);
    cbn [r_base r_limit]; repeat split; try assumption; lia.
Qed.

End ScatterFacts.

Lemma ram_regions_tile_witness :
  ScatterTMPM46B.r_limit
    (ScatterTMPM46B.ARM_LIB_HEAP ScatterTMPM46B.no_defines 0x20001234)
  = ScatterTMPM46B.r_base (ScatterTMPM46B.ARM_LIB_STACK ScatterTMPM46B.no_defines)
  /\ ScatterTMPM46B.r_base
    (ScatterTMPM46B.ARM_LIB_HEAP ScatterTMPM46B.no_defines 0x20001234)
  = 0x20001240.
Proof.
  destruct (ram_regions_tile ScatterTMPM46B.no_defines 0x20001234)
    as (_ & _ & _ & _ & Hheap & _).
  - vm_compute. tauto.
  - vm_compute. discriminate.
  - split; [exact Hheap | reflexivity].
Defined.

(** ** watchdog_api.c, timeouts beyond the 32-bit product *)

Section WatchdogWrap.

Import Watchdog.


End WatchdogWrap.

